(** * waffles: a DFA engine written with C++ templates (src/main.cpp)

    The automaton is a graph of C++ types: [Node<accept, Edge<c, Next>...>].
    Two evaluators walk it: [CTDFARunner] at compile time over a string
    literal, and [RTDFARunner] / [Node::dispatch] at run time over a
    [std::string].

    The embedding keeps the two levels of the source apart:
    - types are values of [ty]; instantiating the class template [Node]
      runs its [static_assert] and is therefore partial ([instantiate]);
    - evaluation results live in the monad [res], which tells a verdict
      from an ill-formed program, from undefined behaviour and from an
      exhausted recursion budget. *)

From Stdlib Require Import ZArith List Ascii String Bool Lia.
From Stdlib Require Import Permutation.
Import ListNotations.
Local Open Scope Z_scope.

(** ** Characters and integers of the source *)

(** The character ['\0']. *)
Definition NUL : ascii := Ascii.zero.

(** [int] is 32 bits wide, [size_t] 64 bits wide. *)
Definition INT_MIN : Z := -2147483648.
Definition INT_MAX : Z := 2147483647.
Definition SIZE_WIDTH : Z := 2 ^ 64.

(** Conversion of an [int] to [size_t], as the usual arithmetic conversions
    do in [index >= input.length()] and in [input[index]]. *)
Definition to_size_t (i : Z) : Z := i mod SIZE_WIDTH.

(** ** Results of an evaluation *)

Inductive res (A : Type) : Type :=
| Ret (a : A)        (* the call returns [a] *)
| IllFormed          (* the program does not compile: a [static_assert]
                        fires, a member does not exist, or a constant
                        expression reads outside an array *)
| Undefined          (* undefined behaviour at run time *)
| OutOfDepth.        (* more nested calls than the budget allows *)

Arguments Ret {A} a.
Arguments IllFormed {A}.
Arguments Undefined {A}.
Arguments OutOfDepth {A}.

Definition bind {A B : Type} (m : res A) (k : A -> res B) : res B :=
  match m with
  | Ret a => k a
  | IllFormed => IllFormed
  | Undefined => Undefined
  | OutOfDepth => OutOfDepth
  end.

Notation "x <- m ;; k" := (bind m (fun x => k))
  (at level 61, m at next level, right associativity).

(** [index + 1] on [int]: signed overflow is undefined behaviour. *)
Definition int_add (a b : Z) : res Z :=
  let s := a + b in
  if (INT_MIN <=? s) && (s <=? INT_MAX) then Ret s else Undefined.

(** ** Types of the program *)

(** The types a template argument can be: an instantiation of [Edge], an
    instantiation of [Node], a struct declared at namespace scope
    ([struct Q0;]), or any other type (the [int] of line 19). *)
#[warnings="-register-all"]
Inductive ty : Type :=
| TOther : ty
| TStruct (name : string) : ty
| TEdge (C : ascii) (NEXT_NODE : ty) : ty
| TNode (_accept : bool) (EDGES : list ty) : ty.

(** [is_edge<T>::value]: only the partial specialisation for [Edge<c, T>]
    is true. *)
Definition is_edge (T : ty) : bool :=
  match T with
  | TEdge _ _ => true
  | _ => false
  end.

Definition is_edge_v (T : ty) : bool := is_edge T.

(** [is_node<T>::value]: only the partial specialisation for
    [Node<accept, EDGES...>] is true (a struct derived from a [Node] is
    not matched). *)
Definition is_node (T : ty) : bool :=
  match T with
  | TNode _ _ => true
  | _ => false
  end.

Definition is_node_v (T : ty) : bool := is_node T.

(** ** [template<char C, typename NEXT_NODE> struct Edge] *)

Module Edge.

Record t : Type := mk { C : ascii; next : ty }.

(** [static constexpr bool check(char c) { return c == C; }] *)
Definition check (E : t) (c : ascii) : bool := Ascii.eqb c (C E).

(** The type [Edge<C, next>] of an edge. *)
Definition to_ty (E : t) : ty := TEdge (C E) (next E).

(** The members of the [Edge] instantiations among template arguments. *)
Definition of_tys (EDGES : list ty) : list t :=
    flat_map (fun T => match T with
                       | TEdge c n => [mk c n]
                       | _ => []
                       end) EDGES.

End Edge.

(** ** [TransitionFinder]: "Return the first possible edge" *)

Fixpoint TransitionFinder (c : ascii) (NODE : ty) (EDGES : list Edge.t) : ty :=
  match EDGES with
  | FIRST :: REST =>
      (* std::conditional_t<FIRST::check(c), FIRST::next, finder<REST...>> *)
      if Edge.check FIRST c then Edge.next FIRST
      else TransitionFinder c NODE REST
  | [] => NODE
  end.

(** ** [template<bool _accept, typename... EDGES> struct Node] *)

Module Node.

(** An instantiated [Node]: its [static_assert] has passed, so every
    template argument after [_accept] is an [Edge]. *)
Record t : Type := mk { accept : bool; EDGES : list Edge.t }.

(** The type [Node<_accept, EDGES...>] itself. *)
Definition self (N : t) : ty := TNode (accept N) (map Edge.to_ty (EDGES N)).

(** Implicit instantiation of [Node<_accept, params...>]:
    [static_assert((is_edge_v<EDGES> && ...))]. *)
Definition instantiate (_accept : bool) (params : list ty) : option t :=
    if forallb is_edge_v params
    then Some (mk _accept (Edge.of_tys params))
    else None.

(** [is_terminal = (sizeof...(EDGES) == 0)] *)
Definition is_terminal (N : t) : bool := Nat.eqb (List.length (EDGES N)) 0.

(** [match_any<c> = (EDGES::check(c) || ...)], a right fold of [||] whose
    value on the empty pack is [false]. *)
Definition match_any (N : t) (c : ascii) : bool :=
    fold_right (fun E rest => Edge.check E c || rest) false (EDGES N).

(** [next<c> = TransitionFinder<c, Node<_accept, EDGES...>, EDGES...>::result] *)
Definition next (N : t) (c : ascii) : ty :=
    TransitionFinder c (self N) (EDGES N).

(** The fold expression of [dispatch] (line 76)
    [((EDGES::check(c) ? (result = helper(input, index + 1), true) : false) || ...)]
    evaluated left to right with the short circuit of [||].  [call NEXT]
    stands for [RTDFARunner<NEXT>::helper(input, index + 1)].  The value is
    the pair of the fold's own value (bound to [_] in the source) and of
    the variable [result] afterwards. *)
Fixpoint dispatch_fold (call : ty -> res bool) (c : ascii)
           (EDGES : list Edge.t) (result : bool) : res (bool * bool) :=
    match EDGES with
    | [] => Ret (false, result)
    | E :: REST =>
        if Edge.check E c
        then r <- call (Edge.next E) ;; Ret (true, r)
        else dispatch_fold call c REST result
    end.

(** [static bool dispatch(const std::string& input, int index)]; the
    runner it calls back is the parameter [helper]. *)
Definition dispatch (helper : ty -> list ascii -> Z -> res bool)
             (N : t) (input : list ascii) (index : Z) : res bool :=
    if to_size_t index >=? Z.of_nat (List.length input) then Ret (accept N)
    else
      match nth_error input (Z.to_nat (to_size_t index)) with
      | None => Undefined
      | Some c =>
          let result := false in
          fr <- dispatch_fold
                  (fun NEXT => i <- int_add index 1 ;; helper NEXT input i)
                  c (EDGES N) result ;;
          Ret (snd fr)
      end.

End Node.

(** ** Programs: the structs defined at namespace scope *)

(** [struct Q0 : Node<true, Edge<'0', Q1>> {};] defines the struct [Q0] with
    an instantiated [Node] as base class; the definition is rejected when
    the base class cannot be instantiated.  A program maps the name of each
    defined struct to its base class; a struct that is only declared has
    none. *)
Definition program : Type := string -> option Node.t.

(** The class whose members [T::accept], [T::match_any], [T::next] and
    [T::dispatch] name: the instantiation itself for a [Node<...>], the base
    class for a struct.  Other types have no such members. *)
Definition node_of (P : program) (T : ty) : option Node.t :=
  match T with
  | TNode a params => Node.instantiate a params
  | TStruct name => P name
  | _ => None
  end.

(** [CURRENT::m] in a constant expression or a call: the member [m] of the
    class of [CURRENT]; the program is ill-formed when there is none. *)
Definition member {A : Type} (P : program) (CURRENT : ty) (m : Node.t -> A)
  : res A :=
  match node_of P CURRENT with
  | Some N => Ret (m N)
  | None => IllFormed
  end.

(** [constexpr char c = data[INDEX];]: a read outside the array is not a
    constant expression. *)
Definition constexpr_read (data : list ascii) (INDEX : nat) : res ascii :=
  match nth_error data INDEX with
  | Some c => Ret c
  | None => IllFormed
  end.

(** ** [template<size_t N> struct FixedString] *)

Module FixedString.

(** [char data[N]]; [N] is the length of the list. *)
Record t : Type := mk { data : list ascii }.

(** The array the constructor builds,
    [for (int i = 0; i < N; ++i) data[i] = str[i];], when [N] fits the
    [int] counter; [construct] below has the counter and its overflow. *)
Definition make (str : list ascii) : t :=
    mk (map (fun i => nth i str NUL) (seq 0 (List.length str))).

(** The array a string literal denotes: its characters and the
    terminating ['\0']. *)
Definition literal (s : list ascii) : list ascii := s ++ [NUL].

(** The constructor with its loop counter as the source has it, an [int]
    compared with the [size_t] bound [N] and incremented by [++i]; [make]
    above is its result as long as [N] fits [int] (see
    [FixedString_constructor_copies]). *)

(** [data[i] = c] *)
Fixpoint store (data : list ascii) (i : nat) (c : ascii) : list ascii :=
  match data, i with
  | [], _ => []
  | _ :: rest, O => c :: rest
  | d :: rest, S j => d :: store rest j c
  end.

(** [for (int i = 0; i < N; ++i) data[i] = str[i];] from the value [i] of
    the counter on; [fuel] bounds the number of tests of [i < N]. *)
Fixpoint ctor_loop (fuel : nat) (str data : list ascii) (i : Z)
  : res (list ascii) :=
  match fuel with
  | O => OutOfDepth
  | S fuel' =>
      if to_size_t i <? Z.of_nat (List.length str) then
        let data' := store data (Z.to_nat i) (nth (Z.to_nat i) str NUL) in
        i' <- int_add i 1 ;;
        ctor_loop fuel' str data' i'
      else Ret data
  end.

(** [constexpr FixedString(const char (&str)[N])]; the members of [data]
    hold no value before the loop. *)
Definition construct (fuel : nat) (str : list ascii) : res t :=
  data <- ctor_loop fuel str (repeat NUL (List.length str)) 0 ;;
  Ret (mk data).

End FixedString.

(** ** [template<typename CURRENT, FixedString S, size_t INDEX = 0> struct CTDFARunner] *)

Module CTDFARunner.

(** The body of [run()].  [inner NEXT_NODE S (INDEX + 1)] stands for the
    call [CTDFARunner<NEXT_NODE, S, INDEX + 1>::run()] into the next
    instantiation.  Reading [S.data[INDEX]] outside the array is not a
    constant expression; the branches of [if constexpr] that are not
    taken are discarded. *)
Definition body (P : program)
           (inner : ty -> FixedString.t -> nat -> res bool)
           (CURRENT : ty) (str : FixedString.t) (INDEX : nat) : res bool :=
  c <- constexpr_read (FixedString.data str) INDEX ;;
  if Ascii.eqb c NUL then
    member P CURRENT Node.accept
  else
    any <- member P CURRENT (fun N => Node.match_any N c) ;;
    if any then
      NEXT_NODE <- member P CURRENT (fun N => Node.next N c) ;;
      inner NEXT_NODE str (INDEX + 1)%nat
    else
      Ret false.

(** [run()]; [depth] bounds the nesting of the instantiations
    [CTDFARunner<_, S, INDEX>], [CTDFARunner<_, S, INDEX + 1>], ... *)
Fixpoint run (P : program) (depth : nat) (CURRENT : ty)
           (str : FixedString.t) (INDEX : nat) : res bool :=
    match depth with
    | O => OutOfDepth
    | S depth' => body P (run P depth') CURRENT str INDEX
    end.

End CTDFARunner.

(** ** [template<typename CURRENT> struct RTDFARunner] *)

Module RTDFARunner.

(** [helper(input, index) = CURRENT::dispatch(input, index)]; [depth]
    bounds the nesting of the activations of [dispatch] ([helper] only
    forwards to it).  The function follows the execution of a program that
    compiled.  Line 76 names [RTDFARunner<EDGES::next>::helper] for every
    edge, taken or not, so the compiler instantiates [dispatch] for every
    state that can be reached from the start, and a program with a
    malformed or undefined reachable state does not compile.  That
    condition is the predicate [automaton] below, which is no computation
    on a [program]; the function checks the state it stands at only, and
    the theorems on results of this runner take [automaton] as a
    hypothesis. *)
Fixpoint helper (P : program) (depth : nat) (CURRENT : ty)
           (input : list ascii) (index : Z) : res bool :=
    match depth with
    | O => OutOfDepth
    | S depth' =>
        match node_of P CURRENT with
        | Some N => Node.dispatch (helper P depth') N input index
        | None => IllFormed
        end
    end.

(** [run(input) = helper(input, 0)] *)
Definition run (P : program) (depth : nat) (CURRENT : ty)
             (input : list ascii) : res bool :=
    helper P depth CURRENT input 0.

End RTDFARunner.

(** ** The two entry points on the same string *)

Definition evaluate_static (P : program) (depth : nat) (start : ty)
           (s : list ascii) : res bool :=
  CTDFARunner.run P depth start (FixedString.make (FixedString.literal s)) 0.

Definition evaluate_dynamic (P : program) (depth : nat) (start : ty)
           (s : list ascii) : res bool :=
  RTDFARunner.run P depth start s.

(** ** Automata *)

(** The states of the automaton that starts at [T]: [T] and every
    destination of an edge of a state of the automaton. *)
Inductive reachable (P : program) : ty -> ty -> Prop :=
| reachable_start (T : ty) : reachable P T T
| reachable_edge (T U : ty) (N : Node.t) (E : Edge.t) :
    node_of P T = Some N ->
    In E (Node.EDGES N) ->
    reachable P (Edge.next E) U ->
    reachable P T U.

(** A well-formed automaton: every state is a [Node] that instantiates
    (or a struct derived from one), so every destination is a state. *)
Definition automaton (P : program) (start : ty) : Prop :=
  forall T, reachable P start T -> exists N, node_of P T = Some N.

(** The labels of the transitions of a state are pairwise distinct. *)
Definition distinct_labels (N : Node.t) : Prop :=
  NoDup (map Edge.C (Node.EDGES N)).

(** No state of the automaton has two transitions with the same label. *)
Definition deterministic (P : program) (start : ty) : Prop :=
  forall T N, reachable P start T -> node_of P T = Some N -> distinct_labels N.

(** The first transition, in declared order, whose label equals [c]
    (the resolver's contract in the words of the specification). *)
Definition first_labelled (c : ascii) (EDGES : list Edge.t) : option Edge.t :=
  find (fun E => Ascii.eqb (Edge.C E) c) EDGES.

(** ** The automata of the source *)

Definition chars (s : string) : list ascii := list_ascii_of_string s.

Module TEST_MATCH_ANY.
Definition Q1 : ty := TNode true [].
Definition Q0 : ty := TNode false [TEdge "0" Q1].
End TEST_MATCH_ANY.

Module TEST_TRANSITION.
Definition Q0 : ty := TStruct "TEST_TRANSITION::Q0".
Definition Q1 : ty := TStruct "TEST_TRANSITION::Q1".
Definition Q2 : ty := TStruct "TEST_TRANSITION::Q2".
Definition Q3 : ty := TStruct "TEST_TRANSITION::Q3".
End TEST_TRANSITION.

Module DFA_01_STAR.
Definition Q0 : ty := TStruct "DFA_01_STAR::Q0".
Definition Q1 : ty := TStruct "DFA_01_STAR::Q1".
Definition Q2 : ty := TStruct "DFA_01_STAR::Q2".
Definition Q3 : ty := TStruct "DFA_01_STAR::Q3".
End DFA_01_STAR.

Module DFA_BRANCH.
Definition Q0 : ty := TStruct "DFA_BRANCH::Q0".
Definition Q1 : ty := TStruct "DFA_BRANCH::Q1".
Definition Q2 : ty := TStruct "DFA_BRANCH::Q2".
End DFA_BRANCH.

(** The struct definitions of lines 146-149, 161-164 and 179-181. *)
Definition main_cpp : program := fun name =>
  if String.eqb name "TEST_TRANSITION::Q0"
  then Node.instantiate true [TEdge "0" TEST_TRANSITION.Q1]
  else if String.eqb name "TEST_TRANSITION::Q1"
  then Node.instantiate false [TEdge "1" TEST_TRANSITION.Q2]
  else if String.eqb name "TEST_TRANSITION::Q2"
  then Node.instantiate false [TEdge "0" TEST_TRANSITION.Q3]
  else if String.eqb name "TEST_TRANSITION::Q3"
  then Node.instantiate true [TEdge "1" TEST_TRANSITION.Q2]
  else if String.eqb name "DFA_01_STAR::Q0"
  then Node.instantiate true [TEdge "0" DFA_01_STAR.Q1]
  else if String.eqb name "DFA_01_STAR::Q1"
  then Node.instantiate false [TEdge "1" DFA_01_STAR.Q2]
  else if String.eqb name "DFA_01_STAR::Q2"
  then Node.instantiate true [TEdge "0" DFA_01_STAR.Q3]
  else if String.eqb name "DFA_01_STAR::Q3"
  then Node.instantiate false [TEdge "1" DFA_01_STAR.Q2]
  else if String.eqb name "DFA_BRANCH::Q0"
  then Node.instantiate false [TEdge "0" DFA_BRANCH.Q1; TEdge "1" DFA_BRANCH.Q2]
  else if String.eqb name "DFA_BRANCH::Q1"
  then Node.instantiate true []
  else if String.eqb name "DFA_BRANCH::Q2"
  then Node.instantiate true []
  else None.

(** Automata that are not in the source, used to exercise the theorems. *)
Module Extra.

(** A state that leads to [left] and to [right] on the same label ['a']. *)
Definition ambiguous (left right : ty) : ty :=
  TNode false [TEdge "a" left; TEdge "a" right].

(** [struct Loop : Node<true, Edge<'a', Loop>> {};], a self-loop. *)
Definition Loop : ty := TStruct "Loop".

(** [struct Z0 : Node<false, Edge<'\0', Z1>> {}; struct Z1 : Node<true> {};] *)
Definition Z0 : ty := TStruct "Z0".
Definition Z1 : ty := TStruct "Z1".

Definition prog : program := fun name =>
  if String.eqb name "Loop" then Node.instantiate true [TEdge "a" Loop]
  else if String.eqb name "Z0" then Node.instantiate false [TEdge NUL Z1]
  else if String.eqb name "Z1" then Node.instantiate true []
  else None.

End Extra.

(** Both evaluators, with a budget of one activation per character and one
    for the end of the string, give the verdict [b] on [s]. *)
Definition verdict (P : program) (start : ty) (s : string) (b : bool) : Prop :=
  evaluate_static P (S (String.length s)) start (chars s) = Ret b /\
  evaluate_dynamic P (S (String.length s)) start (chars s) = Ret b.

(** ** Reference semantics

    Definitions by recursion on the string, against which the index-based
    recursion of the source is compared. *)

(** The C string of a character sequence: what comes before its first
    ['\0']. *)
Fixpoint c_str (s : list ascii) : list ascii :=
  match s with
  | [] => []
  | c :: rest => if Ascii.eqb c NUL then [] else c :: c_str rest
  end.

(** Acceptance of [s] from [CURRENT]: follow, character by character, the
    first transition labelled with the character; reject when there is
    none; at the end of [s] the verdict is the accept flag. *)
Fixpoint accepts (P : program) (CURRENT : ty) (s : list ascii) {struct s}
  : res bool :=
  match node_of P CURRENT with
  | None => IllFormed
  | Some N =>
      match s with
      | [] => Ret (Node.accept N)
      | c :: rest =>
          match first_labelled c (Node.EDGES N) with
          | Some E => accepts P (Edge.next E) rest
          | None => Ret false
          end
      end
  end.

(** The state reached from [CURRENT] by the characters of [s], when every
    one of them has a transition. *)
Fixpoint walk (P : program) (CURRENT : ty) (s : list ascii) : option ty :=
  match s with
  | [] => Some CURRENT
  | c :: rest =>
      match node_of P CURRENT with
      | None => None
      | Some N =>
          match first_labelled c (Node.EDGES N) with
          | Some E => walk P (Edge.next E) rest
          | None => None
          end
      end
  end.

(** The language of the comment on line 157: repetitions of "01". *)
Fixpoint zero_one_star (s : list ascii) : bool :=
  match s with
  | [] => true
  | a :: s' =>
      match s' with
      | b :: rest => Ascii.eqb a "0" && Ascii.eqb b "1" && zero_one_star rest
      | [] => false
      end
  end.

(** The one-character strings "0" and "1". *)
Definition zero_or_one (s : list ascii) : bool :=
  match s with
  | [c] => Ascii.eqb c "0" || Ascii.eqb c "1"
  | _ => false
  end.

(** A translation unit that holds the namespace [DFA_BRANCH] alone. *)
Definition branch_cpp : program := fun name =>
  if String.eqb name "DFA_BRANCH::Q0"
  then Node.instantiate false [TEdge "0" DFA_BRANCH.Q1; TEdge "1" DFA_BRANCH.Q2]
  else if String.eqb name "DFA_BRANCH::Q1"
  then Node.instantiate true []
  else if String.eqb name "DFA_BRANCH::Q2"
  then Node.instantiate true []
  else None.

(** The two programs define every state of the automaton alike. *)
Definition same_states (P P' : program) (start : ty) : Prop :=
  forall T, reachable P start T -> node_of P T = node_of P' T.

(** The strings "0", "010", "01010", ...: alternating, from "0" to "0". *)
Fixpoint zero_to_zero (s : list ascii) : bool :=
  match s with
  | [] => false
  | a :: s' =>
      Ascii.eqb a "0" &&
      match s' with
      | [] => true
      | b :: rest => Ascii.eqb b "1" && zero_to_zero rest
      end
  end.

(** The empty string, and "01" followed by one of the strings above. *)
Definition empty_or_010 (s : list ascii) : bool :=
  match s with
  | [] => true
  | a :: s' =>
      match s' with
      | [] => false
      | b :: rest => Ascii.eqb a "0" && Ascii.eqb b "1" && zero_to_zero rest
      end
  end.

(** * Properties *)

(** ** The monad *)

Lemma bind_Ret_r {A : Type} (m : res A) : bind m (fun a => Ret a) = m.
Proof. destruct m; reflexivity. Qed.

Lemma bind_assoc {A B C : Type} (m : res A) (f : A -> res B) (g : B -> res C) :
  bind (bind m f) g = bind m (fun a => bind (f a) g).
Proof. destruct m; reflexivity. Qed.

(** ** Integers *)

Lemma to_size_t_small (i : Z) : 0 <= i <= INT_MAX -> to_size_t i = i.
Proof.
  intros Hi. unfold to_size_t, SIZE_WIDTH. apply Z.mod_small.
  unfold INT_MAX in Hi. lia.
Qed.

Lemma int_add_1 (i : Z) : 0 <= i < INT_MAX -> int_add i 1 = Ret (i + 1).
Proof.
  intros Hi. unfold int_add, INT_MIN, INT_MAX in *.
  replace (-2147483648 <=? i + 1) with true by (symmetry; apply Z.leb_le; lia).
  replace (i + 1 <=? 2147483647) with true by (symmetry; apply Z.leb_le; lia).
  reflexivity.
Qed.

Lemma geb_false (a b : Z) : a < b -> (a >=? b) = false.
Proof. intros H. rewrite Z.geb_leb. apply Z.leb_gt. exact H. Qed.

Lemma geb_true (a b : Z) : b <= a -> (a >=? b) = true.
Proof. intros H. rewrite Z.geb_leb. apply Z.leb_le. exact H. Qed.

(** ** Fixed strings *)

Lemma FixedString_make_data (str : list ascii) :
  FixedString.data (FixedString.make str) = str.
Proof.
  unfold FixedString.make; simpl.
  induction str as [|a str IH]; simpl; [reflexivity|].
  f_equal. rewrite <- seq_shift, map_map. exact IH.
Qed.

Lemma literal_nth_end (s : list ascii) :
  nth_error (FixedString.literal s) (List.length s) = Some NUL.
Proof.
  unfold FixedString.literal.
  rewrite nth_error_app2 by apply Nat.le_refl.
  rewrite Nat.sub_diag. reflexivity.
Qed.

Lemma literal_nth_inside (s : list ascii) (i : nat) :
  (i < List.length s)%nat ->
  nth_error (FixedString.literal s) i = nth_error s i.
Proof. intros Hi. unfold FixedString.literal. now apply nth_error_app1. Qed.

(** ** Instantiation of [Node] *)

Lemma instantiate_rejects (a : bool) (params : list ty) :
  Node.instantiate a params = None <->
  exists T, In T params /\ is_edge_v T = false.
Proof.
  unfold Node.instantiate.
  destruct (forallb is_edge_v params) eqn:Hall; split.
  - discriminate.
  - intros (T & HT & Hne). rewrite forallb_forall in Hall.
    rewrite (Hall T HT) in Hne. discriminate.
  - intros _. induction params as [|T params IH]; simpl in Hall; [discriminate|].
    destruct (is_edge_v T) eqn:HT.
    + destruct (IH Hall) as (U & HU & Hne). exists U. split; [now right|exact Hne].
    + exists T. split; [now left|exact HT].
  - reflexivity.
Qed.

Lemma of_tys_to_ty (params : list ty) :
  forallb is_edge_v params = true ->
  map Edge.to_ty (Edge.of_tys params) = params.
Proof.
  induction params as [|T params IH]; simpl; [reflexivity|].
  intros H. apply andb_true_iff in H as [HT Hrest].
  destruct T; try discriminate. simpl. f_equal. now apply IH.
Qed.

(** The type the resolver falls back to is the instantiated [Node]. *)
Lemma instantiate_self (a : bool) (params : list ty) (N : Node.t) :
  Node.instantiate a params = Some N -> Node.self N = TNode a params.
Proof.
  unfold Node.instantiate. destruct (forallb is_edge_v params) eqn:Hall; [|discriminate].
  intros [= <-]. unfold Node.self; simpl. now rewrite of_tys_to_ty.
Qed.

(** ** The three scans of the transitions *)

Lemma check_labelled (E : Edge.t) (c : ascii) :
  Edge.check E c = Ascii.eqb (Edge.C E) c.
Proof. unfold Edge.check. apply Ascii.eqb_sym. Qed.

Lemma first_labelled_cons (c : ascii) (E : Edge.t) (REST : list Edge.t) :
  first_labelled c (E :: REST) =
  if Edge.check E c then Some E else first_labelled c REST.
Proof. unfold first_labelled; simpl. now rewrite check_labelled. Qed.

Lemma match_any_first (N : Node.t) (c : ascii) :
  Node.match_any N c =
  match first_labelled c (Node.EDGES N) with Some _ => true | None => false end.
Proof.
  unfold Node.match_any. induction (Node.EDGES N) as [|E REST IH]; [reflexivity|].
  rewrite first_labelled_cons. simpl. destruct (Edge.check E c); [reflexivity|exact IH].
Qed.

Lemma TransitionFinder_first (c : ascii) (NODE : ty) (EDGES : list Edge.t) :
  TransitionFinder c NODE EDGES =
  match first_labelled c EDGES with Some E => Edge.next E | None => NODE end.
Proof.
  induction EDGES as [|E REST IH]; [reflexivity|].
  rewrite first_labelled_cons. simpl. destruct (Edge.check E c); [reflexivity|exact IH].
Qed.

Lemma dispatch_fold_first (call : ty -> res bool) (c : ascii)
      (EDGES : list Edge.t) (result : bool) :
  Node.dispatch_fold call c EDGES result =
  match first_labelled c EDGES with
  | Some E => r <- call (Edge.next E) ;; Ret (true, r)
  | None => Ret (false, result)
  end.
Proof.
  induction EDGES as [|E REST IH]; [reflexivity|].
  rewrite first_labelled_cons. simpl. destruct (Edge.check E c); [reflexivity|exact IH].
Qed.

Lemma first_labelled_In (c : ascii) (EDGES : list Edge.t) (E : Edge.t) :
  first_labelled c EDGES = Some E -> In E EDGES /\ Edge.C E = c.
Proof.
  unfold first_labelled. intros H. apply find_some in H as [HIn Heq].
  split; [exact HIn|]. now apply Ascii.eqb_eq.
Qed.

(** ** One step of each evaluator, in terms of the first labelled edge *)

Lemma dispatch_unfold (helper : ty -> list ascii -> Z -> res bool)
      (N : Node.t) (input : list ascii) (index : Z) :
  0 <= index <= INT_MAX ->
  Node.dispatch helper N input index =
  if index >=? Z.of_nat (List.length input) then Ret (Node.accept N)
  else match nth_error input (Z.to_nat index) with
       | None => Undefined
       | Some c =>
           match first_labelled c (Node.EDGES N) with
           | Some E => i <- int_add index 1 ;; helper (Edge.next E) input i
           | None => Ret false
           end
       end.
Proof.
  intros Hi. unfold Node.dispatch. rewrite (to_size_t_small index Hi).
  destruct (index >=? Z.of_nat (List.length input)); [reflexivity|].
  destruct (nth_error input (Z.to_nat index)) as [c|]; [|reflexivity].
  rewrite dispatch_fold_first.
  destruct (first_labelled c (Node.EDGES N)) as [E|]; [|reflexivity].
  destruct (int_add index 1) as [i| | |]; simpl; try reflexivity.
  destruct (helper (Edge.next E) input i); reflexivity.
Qed.

Lemma helper_unfold (P : program) (depth : nat) (CURRENT : ty) (N : Node.t)
      (input : list ascii) (index : Z) :
  node_of P CURRENT = Some N ->
  0 <= index <= INT_MAX ->
  RTDFARunner.helper P (S depth) CURRENT input index =
  if index >=? Z.of_nat (List.length input) then Ret (Node.accept N)
  else match nth_error input (Z.to_nat index) with
       | None => Undefined
       | Some c =>
           match first_labelled c (Node.EDGES N) with
           | Some E =>
               i <- int_add index 1 ;;
               RTDFARunner.helper P depth (Edge.next E) input i
           | None => Ret false
           end
       end.
Proof.
  intros HN Hi. simpl. rewrite HN. now apply dispatch_unfold.
Qed.

(** The body of [run()] with its monadic steps carried out. *)
Lemma body_eq (P : program) (inner : ty -> FixedString.t -> nat -> res bool)
      (CURRENT : ty) (str : FixedString.t) (INDEX : nat) :
  CTDFARunner.body P inner CURRENT str INDEX =
  match nth_error (FixedString.data str) INDEX with
  | None => IllFormed
  | Some c =>
      match node_of P CURRENT with
      | None => IllFormed
      | Some N =>
          if Ascii.eqb c NUL then Ret (Node.accept N)
          else if Node.match_any N c
               then inner (Node.next N c) str (INDEX + 1)%nat
               else Ret false
      end
  end.
Proof.
  unfold CTDFARunner.body, constexpr_read, member.
  destruct (nth_error (FixedString.data str) INDEX) as [c|]; [|reflexivity].
  simpl. destruct (node_of P CURRENT) as [N|];
    destruct (Ascii.eqb c NUL); reflexivity.
Qed.

Lemma run_unfold (P : program) (depth : nat) (CURRENT : ty) (N : Node.t)
      (str : FixedString.t) (INDEX : nat) (c : ascii) :
  node_of P CURRENT = Some N ->
  nth_error (FixedString.data str) INDEX = Some c ->
  CTDFARunner.run P (S depth) CURRENT str INDEX =
  if Ascii.eqb c NUL then Ret (Node.accept N)
  else match first_labelled c (Node.EDGES N) with
       | Some E => CTDFARunner.run P depth (Edge.next E) str (INDEX + 1)
       | None => Ret false
       end.
Proof.
  intros HN Hc. simpl. rewrite !body_eq. rewrite Hc, HN.
  destruct (Ascii.eqb c NUL); [reflexivity|].
  rewrite match_any_first. unfold Node.next. rewrite TransitionFinder_first.
  destruct (first_labelled c (Node.EDGES N)); reflexivity.
Qed.

(** ** Reachability *)

Lemma reachable_trans (P : program) (T U V : ty) :
  reachable P T U -> reachable P U V -> reachable P T V.
Proof.
  induction 1 as [T|T U N E HN HE _ IH]; intros HV; [exact HV|].
  eapply reachable_edge; eauto.
Qed.

Lemma automaton_edge (P : program) (T : ty) (N : Node.t) (E : Edge.t) :
  automaton P T -> node_of P T = Some N -> In E (Node.EDGES N) ->
  automaton P (Edge.next E).
Proof.
  intros HA HN HE U HU. apply HA. eapply reachable_edge; eauto.
Qed.

Lemma automaton_start (P : program) (T : ty) :
  automaton P T -> exists N, node_of P T = Some N.
Proof. intros HA. apply HA. constructor. Qed.

(** A set of types that contains the start, holds only states and is closed
    under the edges is an automaton. *)
Lemma automaton_by_invariant (P : program) (start : ty) (Q : ty -> Prop) :
  Q start ->
  (forall T, Q T -> exists N, node_of P T = Some N /\
                              forall E, In E (Node.EDGES N) -> Q (Edge.next E)) ->
  forall T, reachable P start T -> Q T.
Proof.
  intros Hs Hclosed T HR. induction HR as [T|T U N E HN HE _ IH]; [exact Hs|].
  apply IH. destruct (Hclosed T Hs) as (N' & HN' & Hedges).
  rewrite HN in HN'. injection HN' as <-. now apply Hedges.
Qed.

(** ** The two evaluators on strings without ['\0'] *)

Section Agreement.

Variable P : program.
Variable s : list ascii.
Hypothesis s_no_NUL : ~ In NUL s.
Hypothesis s_fits_int : Z.of_nat (List.length s) <= INT_MAX.

Lemma lit_inside (i : nat) (c : ascii) :
  nth_error s i = Some c ->
  nth_error (FixedString.data (FixedString.make (FixedString.literal s))) i
  = Some c /\
  Ascii.eqb c NUL = false.
Proof.
  intros Hc. rewrite FixedString_make_data. split.
  - rewrite literal_nth_inside; [exact Hc|].
    apply nth_error_Some. rewrite Hc. discriminate.
  - apply Ascii.eqb_neq. intros ->. apply s_no_NUL. eapply nth_error_In; eauto.
Qed.

Lemma lit_end :
  nth_error (FixedString.data (FixedString.make (FixedString.literal s)))
            (List.length s) = Some NUL.
Proof. rewrite FixedString_make_data. apply literal_nth_end. Qed.

(** At every position and with every budget the compile-time runner and
    the run-time runner compute the same result. *)
Lemma agree_at (depth : nat) :
  forall (CURRENT : ty) (i : nat),
    (i <= List.length s)%nat ->
    CTDFARunner.run P depth CURRENT
      (FixedString.make (FixedString.literal s)) i =
    RTDFARunner.helper P depth CURRENT s (Z.of_nat i).
Proof.
  induction depth as [|depth IH]; intros CURRENT i Hi; [reflexivity|].
  assert (Hidx : 0 <= Z.of_nat i <= INT_MAX) by lia.
  destruct (node_of P CURRENT) as [N|] eqn:HN.
  - rewrite (helper_unfold P depth CURRENT N s (Z.of_nat i) HN Hidx).
    rewrite Nat2Z.id.
    destruct (nth_error s i) as [c|] eqn:Hc.
    + assert (Hlt : (i < List.length s)%nat)
        by (apply nth_error_Some; rewrite Hc; discriminate).
      destruct (lit_inside i c Hc) as [Hd Hnz].
      rewrite (run_unfold P depth CURRENT N _ i c HN Hd), Hnz.
      rewrite geb_false by lia.
      destruct (first_labelled c (Node.EDGES N)) as [E|]; [|reflexivity].
      rewrite int_add_1 by lia. simpl.
      rewrite IH by lia. f_equal. lia.
    + apply nth_error_None in Hc.
      assert (i = List.length s) as -> by lia.
      rewrite (run_unfold P depth CURRENT N _ _ NUL HN lit_end).
      rewrite geb_true by lia.
      reflexivity.
  - cbn [CTDFARunner.run RTDFARunner.helper]. rewrite !body_eq.
    rewrite HN.
    destruct (nth_error (FixedString.data
                           (FixedString.make (FixedString.literal s))) i);
      reflexivity.
Qed.

(** A well-formed automaton gives a verdict once the budget exceeds the
    number of characters left. *)
Lemma helper_verdict (depth : nat) :
  forall (CURRENT : ty) (i : nat),
    automaton P CURRENT ->
    (i <= List.length s)%nat ->
    (List.length s - i < depth)%nat ->
    exists b, RTDFARunner.helper P depth CURRENT s (Z.of_nat i) = Ret b.
Proof.
  induction depth as [|depth IH]; intros CURRENT i HA Hi Hd; [lia|].
  assert (Hidx : 0 <= Z.of_nat i <= INT_MAX) by lia.
  destruct (automaton_start P CURRENT HA) as [N HN].
  rewrite (helper_unfold P depth CURRENT N s (Z.of_nat i) HN Hidx).
  rewrite Nat2Z.id.
  destruct (Z.of_nat i >=? Z.of_nat (List.length s)) eqn:Hge; [eauto|].
  rewrite Z.geb_leb in Hge. apply Z.leb_gt in Hge.
  destruct (nth_error s i) as [c|] eqn:Hc.
  - destruct (first_labelled c (Node.EDGES N)) as [E|] eqn:HE; [|eauto].
    rewrite int_add_1 by lia. simpl.
    replace (Z.of_nat i + 1) with (Z.of_nat (i + 1)) by lia.
    apply IH; try lia.
    apply first_labelled_In in HE as [HIn _].
    eapply automaton_edge; eauto.
  - apply nth_error_None in Hc. lia.
Qed.

End Agreement.

(** The compile-time runner gives a verdict on every literal, embedded
    ['\0'] or not. *)
Lemma run_verdict (P : program) (s : list ascii) (depth : nat) :
  forall (CURRENT : ty) (i : nat),
    automaton P CURRENT ->
    (i <= List.length s)%nat ->
    (List.length s - i < depth)%nat ->
    exists b, CTDFARunner.run P depth CURRENT
                (FixedString.make (FixedString.literal s)) i = Ret b.
Proof.
  induction depth as [|depth IH]; intros CURRENT i HA Hi Hd; [lia|].
  destruct (automaton_start P CURRENT HA) as [N HN].
  assert (Hc : exists c, nth_error (FixedString.literal s) i = Some c /\
                         (Ascii.eqb c NUL = false -> (i < List.length s)%nat)).
  { destruct (Nat.eq_dec i (List.length s)) as [->|Hne].
    - exists NUL. split; [apply literal_nth_end|]. rewrite Ascii.eqb_refl. discriminate.
    - destruct (nth_error (FixedString.literal s) i) as [c|] eqn:Hc.
      + exists c. split; [reflexivity|]. lia.
      + apply nth_error_None in Hc. unfold FixedString.literal in Hc.
        rewrite length_app in Hc. simpl in Hc. lia. }
  destruct Hc as (c & Hc & Hin).
  rewrite <- (FixedString_make_data (FixedString.literal s)) in Hc.
  rewrite (run_unfold P depth CURRENT N _ i c HN Hc).
  destruct (Ascii.eqb c NUL) eqn:Hz; [eauto|].
  specialize (Hin eq_refl).
  destruct (first_labelled c (Node.EDGES N)) as [E|] eqn:HE; [|eauto].
  apply IH; try lia.
  apply first_labelled_In in HE as [HIn _].
  eapply automaton_edge; eauto.
Qed.

(** ** The automata of the source are well formed *)

Lemma states_closed (P : program) (start : ty) (states : list ty)
      (Q : Node.t -> Prop) :
  In start states ->
  (forall T, In T states ->
             exists N, node_of P T = Some N /\ Q N /\
                       forall E, In E (Node.EDGES N) -> In (Edge.next E) states) ->
  automaton P start /\
  (forall T N, reachable P start T -> node_of P T = Some N -> Q N).
Proof.
  intros Hs Hclosed.
  assert (Hinv : forall T, reachable P start T -> In T states).
  { apply automaton_by_invariant; [exact Hs|].
    intros T HT. destruct (Hclosed T HT) as (N & HN & _ & HE). eauto. }
  split.
  - intros T HR. destruct (Hclosed T (Hinv T HR)) as (N & HN & _). eauto.
  - intros T N HR HN. destruct (Hclosed T (Hinv T HR)) as (N' & HN' & HQ & _).
    rewrite HN in HN'. injection HN' as <-. exact HQ.
Qed.

Ltac each_state :=
  let T := fresh "T" in
  let HT := fresh "HT" in
  intros T HT; simpl in HT;
  repeat (destruct HT as [<-|HT]); try contradiction;
  (eexists; split; [reflexivity|]; split;
   [ cbn; repeat constructor; simpl; intuition discriminate
   | let E := fresh "E" in
     let HE := fresh "HE" in
     intros E HE; cbn in HE;
     repeat (destruct HE as [<-|HE]); try contradiction; cbn; auto 10 ]).

Lemma DFA_01_STAR_automaton :
  automaton main_cpp DFA_01_STAR.Q0 /\ deterministic main_cpp DFA_01_STAR.Q0.
Proof.
  apply (states_closed main_cpp DFA_01_STAR.Q0
           [DFA_01_STAR.Q0; DFA_01_STAR.Q1; DFA_01_STAR.Q2; DFA_01_STAR.Q3]
           distinct_labels); [now left|].
  each_state.
Qed.

Lemma DFA_BRANCH_automaton :
  automaton main_cpp DFA_BRANCH.Q0 /\ deterministic main_cpp DFA_BRANCH.Q0.
Proof.
  apply (states_closed main_cpp DFA_BRANCH.Q0
           [DFA_BRANCH.Q0; DFA_BRANCH.Q1; DFA_BRANCH.Q2]
           distinct_labels); [now left|].
  each_state.
Qed.

Lemma Loop_automaton :
  automaton Extra.prog Extra.Loop /\ deterministic Extra.prog Extra.Loop.
Proof.
  apply (states_closed Extra.prog Extra.Loop [Extra.Loop] distinct_labels);
    [now left|].
  each_state.
Qed.

Lemma Z0_automaton :
  automaton Extra.prog Extra.Z0 /\ deterministic Extra.prog Extra.Z0.
Proof.
  apply (states_closed Extra.prog Extra.Z0 [Extra.Z0; Extra.Z1] distinct_labels);
    [now left|].
  each_state.
Qed.

Lemma terminal_automaton (P : program) (a : bool) :
  automaton P (TNode a []) /\ deterministic P (TNode a []).
Proof.
  apply (states_closed P (TNode a []) [TNode a []] distinct_labels); [now left|].
  each_state.
Qed.

(** The assertions of [TEST_MATCH_ANY] (lines 138-139) and of
    [TEST_TRANSITION] (lines 151-154). *)
Example TEST_MATCH_ANY_asserts :
  option_map (fun N => Node.match_any N "0") (node_of main_cpp TEST_MATCH_ANY.Q0)
  = Some true /\
  option_map (fun N => Node.match_any N "1") (node_of main_cpp TEST_MATCH_ANY.Q0)
  = Some false.
Proof. split; reflexivity. Qed.

Example TEST_TRANSITION_asserts :
  option_map (fun N => Node.next N "0") (node_of main_cpp TEST_TRANSITION.Q0)
  = Some TEST_TRANSITION.Q1 /\
  option_map (fun N => Node.next N "1") (node_of main_cpp TEST_TRANSITION.Q1)
  = Some TEST_TRANSITION.Q2 /\
  option_map (fun N => Node.next N "0") (node_of main_cpp TEST_TRANSITION.Q2)
  = Some TEST_TRANSITION.Q3 /\
  option_map (fun N => Node.next N "1") (node_of main_cpp TEST_TRANSITION.Q3)
  = Some TEST_TRANSITION.Q2.
Proof. repeat split; reflexivity. Qed.

(** * The claims *)

(** C8 (concrete fixtures).  On the alternating-bit automaton of
    [DFA_01_STAR] evaluation accepts "", "01" and "0101" and rejects "011"
    and "x"; on the automaton of [DFA_BRANCH] it rejects "" and accepts
    "0" and "1".  The compile-time verdicts are the [static_assert]s of
    lines 167-173 and 182-184. *)
Theorem fixtures_verdicts :
  (verdict main_cpp DFA_01_STAR.Q0 "" true /\
   verdict main_cpp DFA_01_STAR.Q0 "01" true /\
   verdict main_cpp DFA_01_STAR.Q0 "0101" true /\
   verdict main_cpp DFA_01_STAR.Q0 "011" false /\
   verdict main_cpp DFA_01_STAR.Q0 "x" false) /\
  (verdict main_cpp DFA_BRANCH.Q0 "" false /\
   verdict main_cpp DFA_BRANCH.Q0 "0" true /\
   verdict main_cpp DFA_BRANCH.Q0 "1" true).
Proof. unfold verdict. repeat split; vm_compute; reflexivity. Qed.

(** C3 (dynamic evaluator algorithm), amended.  For a state [CURRENT] of a
    well-formed automaton, with class [N], every string [input] and every
    position [index] with [0 <= index] (an [int], so at most [INT_MAX]):
    - at [index >= length input] the call returns [accept];
    - otherwise, with [c = input[index]], if [E] is the first edge labelled
      [c] the call returns what the destination of [E] returns at
      [index + 1], as long as [index + 1] is an [int];
    - if no edge is labelled [c] the call returns [false], whatever budget
      is left: no further call is made. *)
Theorem dispatch_algorithm (P : program) (depth : nat) (CURRENT : ty)
        (N : Node.t) (input : list ascii) (index : Z) :
  automaton P CURRENT ->
  node_of P CURRENT = Some N ->
  0 <= index <= INT_MAX ->
  (Z.of_nat (List.length input) <= index ->
   RTDFARunner.helper P (S depth) CURRENT input index = Ret (Node.accept N)) /\
  (forall c, index < Z.of_nat (List.length input) ->
             nth_error input (Z.to_nat index) = Some c ->
     (forall E, first_labelled c (Node.EDGES N) = Some E ->
        index < INT_MAX ->
        RTDFARunner.helper P (S depth) CURRENT input index =
        RTDFARunner.helper P depth (Edge.next E) input (index + 1)) /\
     (first_labelled c (Node.EDGES N) = None ->
        RTDFARunner.helper P (S depth) CURRENT input index = Ret false)).
Proof.
  intros _ HN Hi.
  rewrite (helper_unfold P depth CURRENT N input index HN Hi).
  split.
  - intros Hge. now rewrite geb_true.
  - intros c Hlt Hc. rewrite geb_false by exact Hlt. rewrite Hc. split.
    + intros E HE Hmax. rewrite HE. rewrite int_add_1 by lia. reflexivity.
    + intros HE. rewrite HE. reflexivity.
Qed.

Lemma dispatch_algorithm_witness :
  RTDFARunner.helper main_cpp 1 DFA_BRANCH.Q1 (chars "1") 1 = Ret true /\
  RTDFARunner.helper main_cpp 2 DFA_BRANCH.Q0 (chars "1") 0 =
  RTDFARunner.helper main_cpp 1 DFA_BRANCH.Q2 (chars "1") 1 /\
  RTDFARunner.helper main_cpp 1 DFA_BRANCH.Q0 (chars "x") 0 = Ret false.
Proof.
  assert (B : forall a, 0 <= a <= 1 -> 0 <= a <= INT_MAX)
    by (unfold INT_MAX; lia).
  assert (M : 0 < INT_MAX) by (unfold INT_MAX; lia).
  assert (A0 : automaton main_cpp DFA_BRANCH.Q0)
    by exact (proj1 DFA_BRANCH_automaton).
  assert (A1 : automaton main_cpp DFA_BRANCH.Q1).
  { apply (automaton_edge main_cpp DFA_BRANCH.Q0
             (Node.mk false [Edge.mk "0" DFA_BRANCH.Q1;
                             Edge.mk "1" DFA_BRANCH.Q2])
             (Edge.mk "0" DFA_BRANCH.Q1) A0 eq_refl). now left. }
  split; [|split].
  - refine (proj1 (dispatch_algorithm main_cpp 0 DFA_BRANCH.Q1
                     (Node.mk true []) (chars "1") 1 A1 eq_refl (B 1 _)) _);
      simpl; lia.
  - refine (proj1 (proj2 (dispatch_algorithm main_cpp 1 DFA_BRANCH.Q0
                     (Node.mk false [Edge.mk "0" DFA_BRANCH.Q1;
                                     Edge.mk "1" DFA_BRANCH.Q2])
                     (chars "1") 0 A0 eq_refl (B 0 _)) "1"%char _ eq_refl)
                  (Edge.mk "1" DFA_BRANCH.Q2) eq_refl M);
      simpl; lia.
  - refine (proj2 (proj2 (dispatch_algorithm main_cpp 0 DFA_BRANCH.Q0
                     (Node.mk false [Edge.mk "0" DFA_BRANCH.Q1;
                                     Edge.mk "1" DFA_BRANCH.Q2])
                     (chars "x") 0 A0 eq_refl (B 0 _)) "x"%char _ eq_refl)
                  eq_refl);
      simpl; lia.
Defined.

(** C3 as stated fails at a negative position.  [index >= input.length()]
    compares after the conversion of the [int] to [size_t], so at position
    [-1] of the one-character string "x" the call on the accepting state
    [Q1] of [DFA_BRANCH] returns the accept flag, although the position is
    below the length and no transition of [Q1] matches any character. *)
Lemma dispatch_at_negative_position :
  automaton main_cpp DFA_BRANCH.Q1 /\
  node_of main_cpp DFA_BRANCH.Q1 = Some (Node.mk true []) /\
  -1 < Z.of_nat (List.length (chars "x")) /\
  (forall c, first_labelled c (Node.EDGES (Node.mk true [])) = None) /\
  (forall depth,
      RTDFARunner.helper main_cpp (S depth) DFA_BRANCH.Q1 (chars "x") (-1)
      = Ret true) /\
  RTDFARunner.helper main_cpp 1 DFA_BRANCH.Q1 (chars "x") (-1) <> Ret false.
Proof.
  split; [|split; [|split; [|split; [|split]]]].
  - apply (automaton_edge main_cpp DFA_BRANCH.Q0
             (Node.mk false [Edge.mk "0" DFA_BRANCH.Q1;
                             Edge.mk "1" DFA_BRANCH.Q2])
             (Edge.mk "0" DFA_BRANCH.Q1) (proj1 DFA_BRANCH_automaton) eq_refl).
    now left.
  - reflexivity.
  - simpl. lia.
  - intros c. reflexivity.
  - intros depth. reflexivity.
  - discriminate.
Qed.




(** C1 (agreement), amended.  For every well-formed automaton without
    duplicate labels on a state and every string that contains no ['\0']
    (and whose positions fit [int]), the compile-time runner on the literal
    and the run-time runner on the same string return the same verdict,
    with any budget above the length of the string. *)
Theorem agreement_without_NUL (P : program) (start : ty) (s : list ascii)
        (depth : nat) :
  automaton P start ->
  deterministic P start ->
  ~ In NUL s ->
  Z.of_nat (List.length s) <= INT_MAX ->
  (List.length s < depth)%nat ->
  exists b, evaluate_static P depth start s = Ret b /\
            evaluate_dynamic P depth start s = Ret b.
Proof.
  intros HA _ Hnul Hfit Hd.
  (* the run-time runner returns a verdict ... *)
  destruct (helper_verdict P s Hfit depth start 0%nat HA) as [b Hb]; try lia.
  exists b. unfold evaluate_static, evaluate_dynamic, RTDFARunner.run.
  split; [|exact Hb].
  (* ... and the compile-time runner computes the same at position 0 *)
  rewrite <- Hb. apply (agree_at P s Hnul Hfit depth start 0%nat). lia.
Qed.

Lemma agreement_without_NUL_witness :
  exists b, evaluate_static main_cpp 5 DFA_01_STAR.Q0 (chars "0101") = Ret b /\
            evaluate_dynamic main_cpp 5 DFA_01_STAR.Q0 (chars "0101") = Ret b.
Proof.
  apply agreement_without_NUL.
  - exact (proj1 DFA_01_STAR_automaton).
  - exact (proj2 DFA_01_STAR_automaton).
  - simpl. unfold NUL. intuition discriminate.
  - unfold INT_MAX. simpl. lia.
  - simpl. lia.
Defined.

(** C1 as stated fails: [Node<true>] has no transitions at all, and on the
    one-character string "\0" the compile-time runner accepts (it stops at
    the first ['\0'] of the literal) while the run-time runner rejects (it
    finds no transition labelled ['\0']). *)
Lemma agreement_fails_on_embedded_NUL :
  let P : program := fun _ => None in
  let Q : ty := TNode true [] in
  automaton P Q /\ deterministic P Q /\
  evaluate_static P 2 Q [NUL] = Ret true /\
  evaluate_dynamic P 2 Q [NUL] = Ret false.
Proof.
  intros P Q. split; [|split; [|split]].
  - exact (proj1 (terminal_automaton P true)).
  - exact (proj2 (terminal_automaton P true)).
  - reflexivity.
  - reflexivity.
Qed.

(** ** The three scans agree on whether a transition matches *)

Lemma dispatch_fold_match_any (N : Node.t) (c : ascii)
      (call : ty -> res bool) (result : bool) :
  Node.dispatch_fold call c (Node.EDGES N) result =
  if Node.match_any N c
  then r <- call (Node.next N c) ;; Ret (true, r)
  else Ret (false, result).
Proof.
  rewrite dispatch_fold_first, match_any_first.
  unfold Node.next. rewrite TransitionFinder_first.
  destruct (first_labelled c (Node.EDGES N)); reflexivity.
Qed.

Lemma match_any_matching_edge (N : Node.t) (c : ascii) :
  Node.match_any N c = true <->
  exists E, In E (Node.EDGES N) /\ Edge.check E c = true /\
            forall NODE, TransitionFinder c NODE (Node.EDGES N) = Edge.next E.
Proof.
  rewrite match_any_first. split.
  - destruct (first_labelled c (Node.EDGES N)) as [E|] eqn:HE; [|discriminate].
    intros _. exists E. destruct (first_labelled_In _ _ _ HE) as [HIn HC].
    split; [exact HIn|]. split.
    + rewrite check_labelled. now apply Ascii.eqb_eq.
    + intros NODE. now rewrite TransitionFinder_first, HE.
  - intros (E & HIn & Hcheck & _).
    destruct (first_labelled c (Node.EDGES N)) as [E'|] eqn:HE; [reflexivity|].
    unfold first_labelled in HE.
    pose proof (find_none _ _ HE E HIn) as Hno. simpl in Hno.
    rewrite <- check_labelled, Hcheck in Hno. discriminate.
Qed.

(** C6 (existence check).  For every node and character, [match_any<c>] is
    true exactly when some edge matches, and then [TransitionFinder]
    returns the destination of a matching edge whatever the fall-back is;
    the fold of [dispatch] has [match_any<c>] as its own value and calls the
    destination that [next<c>] resolves.  Hence the two evaluators agree on
    every well-formed automaton, duplicate labels included, on strings
    without ['\0']. *)
Theorem existence_check_equivalence :
  (forall N c,
      Node.match_any N c = true <->
      exists E, In E (Node.EDGES N) /\ Edge.check E c = true /\
                forall NODE, TransitionFinder c NODE (Node.EDGES N) = Edge.next E) /\
  (forall N c call result,
      Node.dispatch_fold call c (Node.EDGES N) result =
      if Node.match_any N c
      then r <- call (Node.next N c) ;; Ret (true, r)
      else Ret (false, result)) /\
  (forall P start s depth,
      automaton P start ->
      ~ In NUL s ->
      Z.of_nat (List.length s) <= INT_MAX ->
      (List.length s < depth)%nat ->
      exists b, evaluate_static P depth start s = Ret b /\
                evaluate_dynamic P depth start s = Ret b).
Proof.
  split; [exact match_any_matching_edge|].
  split; [exact dispatch_fold_match_any|].
  intros P start s depth HA Hnul Hfit Hd.
  destruct (helper_verdict P s Hfit depth start 0%nat HA) as [b Hb]; try lia.
  exists b. unfold evaluate_static, evaluate_dynamic, RTDFARunner.run.
  split; [|exact Hb].
  rewrite <- Hb. apply (agree_at P s Hnul Hfit depth start 0%nat). lia.
Qed.

Lemma ambiguous_automaton (P : program) :
  automaton P (Extra.ambiguous (TNode true []) (TNode false [])).
Proof.
  apply (states_closed P _
           [Extra.ambiguous (TNode true []) (TNode false []);
            TNode true []; TNode false []] (fun _ => True)); [now left|].
  intros T HT. simpl in HT.
  destruct HT as [<-|[<-|[<-|[]]]];
    (eexists; split; [reflexivity|]; split; [exact I|]);
    intros E HE; cbn in HE.
  - destruct HE as [<-|[<-|[]]]; cbn; auto.
  - destruct HE.
  - destruct HE.
Qed.

Lemma existence_check_equivalence_witness :
  let P : program := fun _ => None in
  let A : ty := Extra.ambiguous (TNode true []) (TNode false []) in
  exists b, evaluate_static P 3 A (chars "a") = Ret b /\
            evaluate_dynamic P 3 A (chars "a") = Ret b.
Proof.
  intros P A.
  apply (proj2 (proj2 existence_check_equivalence)).
  - apply ambiguous_automaton.
  - simpl. unfold NUL. intuition discriminate.
  - unfold INT_MAX. simpl. lia.
  - simpl. lia.
Defined.

(** ** The compile-time runner stops at the first ['\0'] *)

Lemma run_same_prefix (P : program) (str1 str2 : FixedString.t) (k : nat) :
  nth_error (FixedString.data str1) k = Some NUL ->
  (forall i, (i <= k)%nat ->
             nth_error (FixedString.data str1) i =
             nth_error (FixedString.data str2) i) ->
  forall depth CURRENT i,
    (i <= k)%nat ->
    CTDFARunner.run P depth CURRENT str1 i = CTDFARunner.run P depth CURRENT str2 i.
Proof.
  intros Hk Hsame. induction depth as [|depth IH]; intros CURRENT i Hi;
    [reflexivity|].
  simpl. rewrite !body_eq. rewrite <- (Hsame i Hi).
  destruct (nth_error (FixedString.data str1) i) as [c|] eqn:Hc; [|reflexivity].
  destruct (node_of P CURRENT) as [N|]; [|reflexivity].
  destruct (Ascii.eqb c NUL) eqn:Hz; [reflexivity|].
  destruct (Node.match_any N c); [|reflexivity].
  apply IH.
  assert (i <> k).
  { intros ->. rewrite Hk in Hc. injection Hc as <-.
    rewrite Ascii.eqb_refl in Hz. discriminate. }
  lia.
Qed.

Lemma static_ignores_after_NUL (P : program) (depth : nat) (CURRENT : ty)
      (pre rest : list ascii) :
  evaluate_static P depth CURRENT (pre ++ NUL :: rest) =
  evaluate_static P depth CURRENT pre.
Proof.
  unfold evaluate_static.
  apply (run_same_prefix P _ _ (List.length pre)); [| |lia];
    rewrite !FixedString_make_data; unfold FixedString.literal.
  - rewrite <- app_assoc. rewrite nth_error_app2 by apply Nat.le_refl.
    rewrite Nat.sub_diag. reflexivity.
  - intros i Hi. rewrite <- app_assoc.
    destruct (Nat.eq_dec i (List.length pre)) as [->|Hne].
    + rewrite (nth_error_app2 pre ((NUL :: rest) ++ [NUL]) (Nat.le_refl _)).
      rewrite (nth_error_app2 pre [NUL] (Nat.le_refl _)).
      rewrite Nat.sub_diag. reflexivity.
    + assert (Hlt : (i < List.length pre)%nat) by lia.
      rewrite (nth_error_app1 pre ((NUL :: rest) ++ [NUL]) Hlt).
      rewrite (nth_error_app1 pre [NUL] Hlt). reflexivity.
Qed.

(** C4 (end-of-string verdict), amended.  At the end of the literal the
    compile-time runner returns the accept flag of the current state.
    Before the end, it returns that flag exactly when the character at the
    position is ['\0']; on any other character it advances or rejects and
    does not look at the flag.  For a literal without ['\0'] the flag is
    therefore read at the end of the string only. *)
Theorem static_end_of_string (P : program) (depth : nat) (CURRENT : ty)
        (N : Node.t) (s : list ascii) :
  node_of P CURRENT = Some N ->
  let lit := FixedString.make (FixedString.literal s) in
  CTDFARunner.run P (S depth) CURRENT lit (List.length s) = Ret (Node.accept N) /\
  (forall INDEX c,
      nth_error s INDEX = Some c ->
      CTDFARunner.run P (S depth) CURRENT lit INDEX =
      if Ascii.eqb c NUL then Ret (Node.accept N)
      else if Node.match_any N c
           then CTDFARunner.run P depth (Node.next N c) lit (INDEX + 1)
           else Ret false) /\
  (~ In NUL s ->
   forall INDEX c,
      nth_error s INDEX = Some c ->
      CTDFARunner.run P (S depth) CURRENT lit INDEX =
      if Node.match_any N c
      then CTDFARunner.run P depth (Node.next N c) lit (INDEX + 1)
      else Ret false).
Proof.
  intros HN lit.
  assert (Hstep : forall INDEX c,
             nth_error s INDEX = Some c ->
             CTDFARunner.run P (S depth) CURRENT lit INDEX =
             if Ascii.eqb c NUL then Ret (Node.accept N)
             else if Node.match_any N c
                  then CTDFARunner.run P depth (Node.next N c) lit (INDEX + 1)
                  else Ret false).
  { intros INDEX c Hc.
    assert (Hd : nth_error (FixedString.data lit) INDEX = Some c).
    { unfold lit. rewrite FixedString_make_data, literal_nth_inside;
        [exact Hc|]. apply nth_error_Some. rewrite Hc. discriminate. }
    cbn [CTDFARunner.run]. now rewrite body_eq, Hd, HN. }
  split; [|split].
  - assert (Hd : nth_error (FixedString.data lit) (List.length s) = Some NUL)
      by (unfold lit; rewrite FixedString_make_data; apply literal_nth_end).
    cbn [CTDFARunner.run]. now rewrite body_eq, Hd, HN.
  - exact Hstep.
  - intros Hnul INDEX c Hc. rewrite (Hstep INDEX c Hc).
    replace (Ascii.eqb c NUL) with false; [reflexivity|].
    symmetry. apply Ascii.eqb_neq. intros ->. apply Hnul.
    eapply nth_error_In; eauto.
Qed.

Lemma static_end_of_string_witness :
  let lit := FixedString.make (FixedString.literal (chars "01")) in
  CTDFARunner.run main_cpp 1 DFA_01_STAR.Q2 lit 2 = Ret true /\
  CTDFARunner.run main_cpp 3 DFA_01_STAR.Q0 lit 0 =
  CTDFARunner.run main_cpp 2 DFA_01_STAR.Q1 lit 1.
Proof.
  intros lit. split.
  - exact (proj1 (static_end_of_string main_cpp 0 DFA_01_STAR.Q2
                    (Node.mk true [Edge.mk "0" DFA_01_STAR.Q3]) (chars "01")
                    eq_refl)).
  - refine (proj2 (proj2 (static_end_of_string main_cpp 2 DFA_01_STAR.Q0
                    (Node.mk true [Edge.mk "0" DFA_01_STAR.Q1]) (chars "01")
                    eq_refl)) _ 0%nat "0"%char eq_refl).
    simpl. unfold NUL. intuition discriminate.
Defined.

(** C4 as stated fails: in the literal "\0" position 0 is not the end of
    the one-character string, yet the compile-time runner returns the
    accept flag of [Node<true>] there, where a scan of the transitions
    would reject. *)
Lemma accept_flag_before_end_of_literal :
  let P : program := fun _ => None in
  let Q : ty := TNode true [] in
  let s : list ascii := [NUL] in
  let lit := FixedString.make (FixedString.literal s) in
  exists N,
    node_of P Q = Some N /\
    (0 < List.length s)%nat /\
    CTDFARunner.run P 1 Q lit 0 = Ret (Node.accept N) /\
    CTDFARunner.run P 1 Q lit 0 <>
    (if Node.match_any N NUL
     then CTDFARunner.run P 0 (Node.next N NUL) lit 1
     else Ret false).
Proof.
  intros P Q s lit. exists (Node.mk true []).
  split; [reflexivity|]. split; [simpl; lia|]. split; [reflexivity|].
  vm_compute. discriminate.
Qed.

(** ** Recursion depth *)

Lemma bind_not_OutOfDepth {A B : Type} (m : res A) (k : A -> res B) :
  m <> OutOfDepth -> (forall a, m = Ret a -> k a <> OutOfDepth) ->
  bind m k <> OutOfDepth.
Proof. intros Hm Hk. destruct m; simpl; try discriminate; [now apply Hk|contradiction]. Qed.

(** The run-time runner never needs more activations than characters left
    plus one, on any program. *)
Lemma helper_depth (P : program) (s : list ascii) (depth : nat) :
  forall (CURRENT : ty) (index : Z),
    0 <= index <= INT_MAX ->
    (Z.to_nat (Z.of_nat (List.length s) - index) < depth)%nat ->
    RTDFARunner.helper P depth CURRENT s index <> OutOfDepth.
Proof.
  induction depth as [|depth IH]; intros CURRENT index Hi Hd; [lia|].
  destruct (node_of P CURRENT) as [N|] eqn:HN;
    [|simpl; rewrite HN; discriminate].
  rewrite (helper_unfold P depth CURRENT N s index HN Hi).
  destruct (index >=? Z.of_nat (List.length s)) eqn:Hge; [discriminate|].
  rewrite Z.geb_leb in Hge. apply Z.leb_gt in Hge.
  destruct (nth_error s (Z.to_nat index)) as [c|]; [|discriminate].
  destruct (first_labelled c (Node.EDGES N)) as [E|]; [|discriminate].
  apply bind_not_OutOfDepth.
  - unfold int_add. destruct (_ && _); discriminate.
  - intros i Hadd. unfold int_add in Hadd.
    destruct ((INT_MIN <=? index + 1) && (index + 1 <=? INT_MAX)) eqn:Hb;
      [|discriminate].
    injection Hadd as <-.
    apply andb_true_iff in Hb as [_ Hmax]. apply Z.leb_le in Hmax.
    apply IH; lia.
Qed.

(** Neither does the compile-time runner on a literal. *)
Lemma run_depth (P : program) (s : list ascii) (depth : nat) :
  forall (CURRENT : ty) (i : nat),
    (i <= List.length s)%nat ->
    (List.length s - i < depth)%nat ->
    CTDFARunner.run P depth CURRENT
      (FixedString.make (FixedString.literal s)) i <> OutOfDepth.
Proof.
  induction depth as [|depth IH]; intros CURRENT i Hi Hd; [lia|].
  set (lit := FixedString.make (FixedString.literal s)) in *.
  assert (Hdata : FixedString.data lit = FixedString.literal s)
    by apply FixedString_make_data.
  cbn [CTDFARunner.run]. rewrite !body_eq. rewrite Hdata.
  destruct (Nat.eq_dec i (List.length s)) as [->|Hne].
  - rewrite literal_nth_end.
    destruct (node_of P CURRENT); [|discriminate].
    rewrite Ascii.eqb_refl. discriminate.
  - destruct (nth_error (FixedString.literal s) i); [|discriminate].
    destruct (node_of P CURRENT) as [N|]; [|discriminate].
    destruct (Ascii.eqb a NUL); [discriminate|].
    destruct (Node.match_any N a); [|discriminate].
    apply IH; lia.
Qed.

(** [dispatch] calls back only at [index + 1], and only below the length. *)
Lemma dispatch_calls_next_position
      (h1 h2 : ty -> list ascii -> Z -> res bool) (N : Node.t)
      (input : list ascii) (index : Z) :
  (forall T, index < Z.of_nat (List.length input) ->
             h1 T input (index + 1) = h2 T input (index + 1)) ->
  Node.dispatch h1 N input index = Node.dispatch h2 N input index.
Proof.
  intros Hsame. unfold Node.dispatch.
  destruct (to_size_t index >=? Z.of_nat (List.length input)) eqn:Hge;
    [reflexivity|].
  rewrite Z.geb_leb in Hge. apply Z.leb_gt in Hge.
  destruct (nth_error input (Z.to_nat (to_size_t index))) as [c|]; [|reflexivity].
  rewrite !dispatch_fold_first.
  destruct (first_labelled c (Node.EDGES N)) as [E|]; [|reflexivity].
  unfold int_add.
  destruct ((INT_MIN <=? index + 1) && (index + 1 <=? INT_MAX)) eqn:Hb;
    [|reflexivity].
  apply andb_true_iff in Hb as [_ Hmax]. apply Z.leb_le in Hmax.
  simpl. rewrite Hsame; [reflexivity|].
  destruct (Z_lt_le_dec index 0) as [Hneg|Hpos]; [lia|].
  rewrite to_size_t_small in Hge by lia. exact Hge.
Qed.

(** The body of [run()] refers to the next instantiation only at
    [INDEX + 1], and only below the length of the literal. *)
Lemma body_calls_next_position (P : program)
      (r1 r2 : ty -> FixedString.t -> nat -> res bool) (CURRENT : ty)
      (s : list ascii) (INDEX : nat) :
  let lit := FixedString.make (FixedString.literal s) in
  (forall T, (INDEX < List.length s)%nat ->
             r1 T lit (INDEX + 1)%nat = r2 T lit (INDEX + 1)%nat) ->
  CTDFARunner.body P r1 CURRENT lit INDEX = CTDFARunner.body P r2 CURRENT lit INDEX.
Proof.
  intros lit Hsame. rewrite !body_eq.
  destruct (nth_error (FixedString.data lit) INDEX) as [c|] eqn:Hc; [|reflexivity].
  destruct (node_of P CURRENT) as [N|]; [|reflexivity].
  destruct (Ascii.eqb c NUL) eqn:Hz; [reflexivity|].
  destruct (Node.match_any N c); [|reflexivity].
  apply Hsame.
  unfold lit in Hc. rewrite FixedString_make_data in Hc.
  assert (Hlt : (INDEX < List.length (FixedString.literal s))%nat)
    by (apply nth_error_Some; rewrite Hc; discriminate).
  unfold FixedString.literal in Hlt. rewrite length_app in Hlt. simpl in Hlt.
  destruct (Nat.eq_dec INDEX (List.length s)) as [->|Hne]; [|lia].
  rewrite literal_nth_end in Hc. injection Hc as <-.
  rewrite Ascii.eqb_refl in Hz. discriminate.
Qed.

(** C7 (termination bound).  On a string of length N:
    - with a budget of N + 1 nested activations neither evaluator runs out
      of budget, on any automaton, cyclic or not;
    - on a well-formed automaton both then return a verdict (the run-time
      runner as long as the positions fit [int]);
    - an activation at a position calls only the next position, and only
      while the position is below the length. *)
Theorem termination_bound :
  (forall P start s depth,
      (List.length s < depth)%nat ->
      evaluate_dynamic P depth start s <> OutOfDepth /\
      evaluate_static P depth start s <> OutOfDepth) /\
  (forall P start s depth,
      automaton P start ->
      (List.length s < depth)%nat ->
      exists b, evaluate_static P depth start s = Ret b) /\
  (forall P start s depth,
      automaton P start ->
      Z.of_nat (List.length s) <= INT_MAX ->
      (List.length s < depth)%nat ->
      exists b, evaluate_dynamic P depth start s = Ret b) /\
  (forall h1 h2 N input index,
      (forall T, index < Z.of_nat (List.length input) ->
                 h1 T input (index + 1) = h2 T input (index + 1)) ->
      Node.dispatch h1 N input index = Node.dispatch h2 N input index) /\
  (forall P r1 r2 CURRENT s INDEX,
      let lit := FixedString.make (FixedString.literal s) in
      (forall T, (INDEX < List.length s)%nat ->
                 r1 T lit (INDEX + 1)%nat = r2 T lit (INDEX + 1)%nat) ->
      CTDFARunner.body P r1 CURRENT lit INDEX =
      CTDFARunner.body P r2 CURRENT lit INDEX).
Proof.
  split; [|split; [|split; [|split]]].
  - intros P start s depth Hd. split.
    + unfold evaluate_dynamic, RTDFARunner.run.
      apply helper_depth; [unfold INT_MAX|]; lia.
    + unfold evaluate_static. apply run_depth; lia.
  - intros P start s depth HA Hd. unfold evaluate_static.
    apply run_verdict; [exact HA|lia|lia].
  - intros P start s depth HA Hfit Hd.
    unfold evaluate_dynamic, RTDFARunner.run.
    apply (helper_verdict P s Hfit depth start 0%nat HA); lia.
  - exact dispatch_calls_next_position.
  - exact body_calls_next_position.
Qed.

Lemma termination_bound_witness :
  evaluate_dynamic Extra.prog 4 Extra.Loop (chars "aaa") <> OutOfDepth /\
  (exists b, evaluate_static Extra.prog 4 Extra.Loop (chars "aaa") = Ret b) /\
  (exists b, evaluate_dynamic Extra.prog 4 Extra.Loop (chars "aaa") = Ret b).
Proof.
  destruct termination_bound as (Hdepth & Hstatic & Hdynamic & _).
  split; [|split].
  - apply (Hdepth Extra.prog Extra.Loop (chars "aaa") 4%nat). simpl. lia.
  - apply Hstatic; [exact (proj1 Loop_automaton)|simpl; lia].
  - apply Hdynamic;
      [exact (proj1 Loop_automaton)|unfold INT_MAX; simpl; lia|simpl; lia].
Defined.

(** The bound is reached: on the self-loop, three activations are not
    enough for a string of three characters. *)
Example budget_of_length_is_too_small :
  evaluate_dynamic Extra.prog 3 Extra.Loop (chars "aaa") = OutOfDepth /\
  evaluate_static Extra.prog 3 Extra.Loop (chars "aaa") = OutOfDepth /\
  evaluate_dynamic Extra.prog 4 Extra.Loop (chars "aaa") = Ret true /\
  evaluate_static Extra.prog 4 Extra.Loop (chars "aaa") = Ret true.
Proof. repeat split; vm_compute; reflexivity. Qed.

(** ** Conversions *)

(** [index >= input.length()] compares after the conversion of [index] to
    [size_t]: a negative [int] is past the end of every string. *)
Example negative_index_is_past_the_end
        (helper : ty -> list ascii -> Z -> res bool) :
  Node.dispatch helper (Node.mk true []) (chars "a") (-1) = Ret true.
Proof. reflexivity. Qed.

(** ** Types that are no state *)

(** A type that is no state gives no verdict, from either runner. *)
Lemma no_verdict_without_node (P : program) (T : ty) :
  node_of P T = None ->
  forall depth str INDEX input index b,
    CTDFARunner.run P depth T str INDEX <> Ret b /\
    RTDFARunner.helper P depth T input index <> Ret b.
Proof.
  intros HT depth str INDEX input index b.
  destruct depth as [|depth]; simpl; [split; discriminate|].
  rewrite !body_eq. rewrite HT.
  destruct (nth_error (FixedString.data str) INDEX); split; discriminate.
Qed.

(** C9 as stated fails: naming a specialisation of [Node] does not
    instantiate it.  The state [Node<true, int>] below is the destination of
    the transition on ['a']; its [static_assert] does not run while the
    empty string is evaluated at compile time, and that evaluation returns a
    verdict.  Only an evaluation that gets to the state is rejected. *)
Lemma malformed_destination_not_rejected :
  let P : program := fun _ => None in
  let bad : ty := TNode true [TOther] in
  let Q : ty := TNode true [TEdge "a" bad] in
  (exists T, In T [TOther] /\ is_edge_v T = false) /\
  reachable P Q bad /\
  evaluate_static P 1 Q (chars "") = Ret true /\
  evaluate_static P 2 Q (chars "a") = IllFormed.
Proof.
  intros P bad Q. split; [|split; [|split]].
  - exists TOther. split; [now left|reflexivity].
  - apply (reachable_edge P Q bad (Node.mk true [Edge.mk "a" bad])
             (Edge.mk "a" bad)); [reflexivity|now left|constructor].
  - reflexivity.
  - reflexivity.
Qed.

(** ** The fall-back of the resolver *)

(** C10 (no-match fall-back).  When no edge of a node matches [c],
    [next<c>] is the type of the node itself, [Node<_accept, EDGES...>].
    The compile-time runner never gets there: on such a character it
    rejects without resolving a successor, and whenever it does resolve
    one, [match_any<c>] holds, so the result is the destination of a
    matching edge and does not depend on the fall-back. *)
Theorem resolver_fallback_unreachable :
  (forall N c, Node.match_any N c = false -> Node.next N c = Node.self N) /\
  (forall a params N c,
      Node.instantiate a params = Some N ->
      Node.match_any N c = false ->
      Node.next N c = TNode a params) /\
  (forall P inner CURRENT N str INDEX c,
      node_of P CURRENT = Some N ->
      nth_error (FixedString.data str) INDEX = Some c ->
      Node.match_any N c = false ->
      CTDFARunner.body P inner CURRENT str INDEX =
      if Ascii.eqb c NUL then Ret (Node.accept N) else Ret false) /\
  (forall P inner CURRENT N str INDEX c,
      node_of P CURRENT = Some N ->
      nth_error (FixedString.data str) INDEX = Some c ->
      Node.match_any N c = true ->
      c <> NUL ->
      exists E, In E (Node.EDGES N) /\ Edge.check E c = true /\
                (forall NODE, TransitionFinder c NODE (Node.EDGES N) = Edge.next E) /\
                CTDFARunner.body P inner CURRENT str INDEX =
                inner (Edge.next E) str (INDEX + 1)%nat).
Proof.
  assert (Hself : forall N c, Node.match_any N c = false ->
                              Node.next N c = Node.self N).
  { intros N c Hno. unfold Node.next. rewrite TransitionFinder_first.
    rewrite match_any_first in Hno.
    destruct (first_labelled c (Node.EDGES N)); [discriminate|reflexivity]. }
  split; [exact Hself|]. split; [|split].
  - intros a params N c HN Hno. rewrite (Hself N c Hno).
    now apply instantiate_self.
  - intros P inner CURRENT N str INDEX c HN Hc Hno.
    rewrite !body_eq. now rewrite Hc, HN, Hno.
  - intros P inner CURRENT N str INDEX c HN Hc Hany Hnz.
    destruct (proj1 (match_any_matching_edge N c) Hany) as (E & HIn & Hcheck & HE).
    exists E. repeat split; try assumption.
    rewrite !body_eq. rewrite Hc, HN, Hany.
    apply Ascii.eqb_neq in Hnz. rewrite Hnz.
    unfold Node.next. now rewrite HE.
Qed.

(** For a struct derived from a [Node] the fall-back is the base class
    [Node<_accept, EDGES...>]: the same state, as every member is inherited. *)
Example fallback_of_a_struct :
  option_map (fun N => Node.next N "x") (node_of main_cpp DFA_01_STAR.Q0) =
  Some (TNode true [TEdge "0" DFA_01_STAR.Q1]) /\
  node_of main_cpp (TNode true [TEdge "0" DFA_01_STAR.Q1]) =
  node_of main_cpp DFA_01_STAR.Q0.
Proof. split; reflexivity. Qed.

Lemma resolver_fallback_unreachable_witness :
  Node.next (Node.mk false [Edge.mk "0" DFA_BRANCH.Q1; Edge.mk "1" DFA_BRANCH.Q2])
            "x" =
  TNode false [TEdge "0" DFA_BRANCH.Q1; TEdge "1" DFA_BRANCH.Q2] /\
  CTDFARunner.run main_cpp 2 DFA_BRANCH.Q0
    (FixedString.make (FixedString.literal (chars "x"))) 0 = Ret false.
Proof.
  destruct resolver_fallback_unreachable as (_ & Hnode & Hreject & _).
  split.
  - apply Hnode; reflexivity.
  - apply (Hreject main_cpp (CTDFARunner.run main_cpp 1) DFA_BRANCH.Q0
             (Node.mk false [Edge.mk "0" DFA_BRANCH.Q1; Edge.mk "1" DFA_BRANCH.Q2])
             (FixedString.make (FixedString.literal (chars "x"))) 0%nat "x"%char);
      reflexivity.
Defined.

(** * Further properties of the code *)

(** ** The run-time runner reads the string from the position on *)

Lemma helper_shift (P : program) (input : list ascii) (i : nat) :
  Z.of_nat (List.length input) <= INT_MAX ->
  forall depth CURRENT (j : nat),
    (i + j <= List.length input)%nat ->
    RTDFARunner.helper P depth CURRENT input (Z.of_nat (i + j)) =
    RTDFARunner.helper P depth CURRENT (skipn i input) (Z.of_nat j).
Proof.
  intros Hfit. induction depth as [|depth IH]; intros CURRENT j Hij;
    [reflexivity|].
  assert (Hlen : List.length (skipn i input) = (List.length input - i)%nat)
    by apply length_skipn.
  destruct (node_of P CURRENT) as [N|] eqn:HN;
    [|simpl; rewrite HN; reflexivity].
  rewrite (helper_unfold P depth CURRENT N input _ HN) by lia.
  rewrite (helper_unfold P depth CURRENT N (skipn i input) _ HN) by lia.
  rewrite Hlen, !Nat2Z.id, nth_error_skipn.
  destruct (Nat.eq_dec (i + j) (List.length input)) as [Heq|Hne].
  - rewrite !geb_true by lia. reflexivity.
  - rewrite !geb_false by lia.
    destruct (nth_error input (i + j)) as [c|]; [|reflexivity].
    destruct (first_labelled c (Node.EDGES N)) as [E|]; [|reflexivity].
    rewrite !int_add_1 by lia. simpl.
    replace (Z.of_nat (i + j) + 1) with (Z.of_nat (i + (j + 1))) by lia.
    replace (Z.of_nat j + 1) with (Z.of_nat (j + 1)) by lia.
    apply IH. lia.
Qed.

(** X2 (suffix).  A call of [helper] at position [i] of [input] computes
    what [run] computes on the characters of [input] from [i] on: the
    characters before the position play no part. *)
Theorem helper_reads_the_suffix (P : program) (depth : nat) (CURRENT : ty)
        (input : list ascii) (i : nat) :
  Z.of_nat (List.length input) <= INT_MAX ->
  (i <= List.length input)%nat ->
  RTDFARunner.helper P depth CURRENT input (Z.of_nat i) =
  RTDFARunner.run P depth CURRENT (skipn i input).
Proof.
  intros Hfit Hi. unfold RTDFARunner.run.
  replace (Z.of_nat i) with (Z.of_nat (i + 0)) by (f_equal; lia).
  now apply (helper_shift P input i Hfit depth CURRENT 0%nat); lia.
Qed.

Lemma helper_reads_the_suffix_witness :
  RTDFARunner.helper main_cpp 3 DFA_01_STAR.Q2 (chars "0101") 2 =
  RTDFARunner.run main_cpp 3 DFA_01_STAR.Q2 (chars "01").
Proof.
  apply (helper_reads_the_suffix main_cpp 3 DFA_01_STAR.Q2 (chars "0101") 2).
  - unfold INT_MAX. simpl. lia.
  - simpl. lia.
Defined.

(** ** The run-time runner against acceptance by recursion on the string *)

Lemma accepts_unfold (P : program) (CURRENT : ty) (s : list ascii) :
  accepts P CURRENT s =
  match node_of P CURRENT with
  | None => IllFormed
  | Some N =>
      match s with
      | [] => Ret (Node.accept N)
      | c :: rest =>
          match first_labelled c (Node.EDGES N) with
          | Some E => accepts P (Edge.next E) rest
          | None => Ret false
          end
      end
  end.
Proof. destruct s; reflexivity. Qed.

Lemma run_accepts (P : program) (s : list ascii) :
  forall depth CURRENT,
    Z.of_nat (List.length s) <= INT_MAX ->
    (List.length s < depth)%nat ->
    RTDFARunner.run P depth CURRENT s = accepts P CURRENT s.
Proof.
  induction s as [|c rest IH]; intros depth CURRENT Hfit Hd;
    (destruct depth as [|depth]; [simpl in Hd; lia|]);
    unfold RTDFARunner.run; rewrite accepts_unfold;
    (destruct (node_of P CURRENT) as [N|] eqn:HN;
     [|simpl; rewrite HN; reflexivity]);
    rewrite (helper_unfold P depth CURRENT N _ 0 HN) by (unfold INT_MAX; lia).
  - reflexivity.
  - assert (Hlen : List.length (c :: rest) = S (List.length rest))
      by reflexivity.
    rewrite geb_false by lia.
    change (nth_error (c :: rest) (Z.to_nat 0)) with (Some c). cbv iota.
    destruct (first_labelled c (Node.EDGES N)) as [E|]; [|reflexivity].
    rewrite int_add_1 by lia. simpl bind.
    rewrite <- (IH depth (Edge.next E)) by (rewrite Hlen in *; lia).
    unfold RTDFARunner.run.
    apply (helper_shift P (c :: rest) 1 Hfit depth (Edge.next E) 0%nat).
    rewrite Hlen. lia.
Qed.

(** X1 (acceptance).  On a well-formed automaton and with a budget above
    the length, [run] returns the verdict of the automaton read as usual:
    the accept flag of the state reached by following, for each character
    in turn, the first transition labelled with it, and [false] as soon as
    a character has none. *)
Theorem run_is_acceptance (P : program) (depth : nat) (start : ty)
        (s : list ascii) :
  automaton P start ->
  Z.of_nat (List.length s) <= INT_MAX ->
  (List.length s < depth)%nat ->
  evaluate_dynamic P depth start s = accepts P start s /\
  exists b, accepts P start s = Ret b.
Proof.
  intros HA Hfit Hd.
  assert (Heq : evaluate_dynamic P depth start s = accepts P start s)
    by (unfold evaluate_dynamic; now apply run_accepts).
  split; [exact Heq|].
  rewrite <- Heq. unfold evaluate_dynamic, RTDFARunner.run.
  apply (helper_verdict P s Hfit depth start 0%nat HA); lia.
Qed.

Lemma run_is_acceptance_witness :
  evaluate_dynamic main_cpp 4 DFA_01_STAR.Q0 (chars "011") =
  accepts main_cpp DFA_01_STAR.Q0 (chars "011").
Proof.
  apply run_is_acceptance.
  - exact (proj1 DFA_01_STAR_automaton).
  - unfold INT_MAX. simpl. lia.
  - simpl. lia.
Defined.

(** ** The compile-time runner reads the C string of the literal *)

Lemma c_str_no_NUL (s : list ascii) : ~ In NUL (c_str s).
Proof.
  induction s as [|c rest IH]; simpl; [tauto|].
  destruct (Ascii.eqb c NUL) eqn:Hc; simpl; [tauto|].
  intros [->|H]; [|now apply IH].
  rewrite Ascii.eqb_refl in Hc. discriminate.
Qed.

Lemma c_str_split (s : list ascii) :
  s = c_str s \/ exists rest, s = c_str s ++ NUL :: rest.
Proof.
  induction s as [|c rest IH]; simpl; [now left|].
  destruct (Ascii.eqb c NUL) eqn:Hc.
  - right. exists rest. apply Ascii.eqb_eq in Hc. now subst.
  - destruct IH as [IH|[tl IH]].
    + left. now f_equal.
    + right. exists tl. simpl. now f_equal.
Qed.

Lemma c_str_length (s : list ascii) :
  (List.length (c_str s) <= List.length s)%nat.
Proof.
  induction s as [|c rest IH]; simpl; [lia|].
  destruct (Ascii.eqb c NUL); simpl; lia.
Qed.

(** X3 (C string).  On a well-formed automaton, on every literal, with or
    without embedded ['\0'], and with every budget, the compile-time runner
    computes what the run-time runner computes on the C string of the
    literal, the characters before its first ['\0']. *)
Theorem static_is_dynamic_on_c_str (P : program) (depth : nat) (start : ty)
        (s : list ascii) :
  automaton P start ->
  Z.of_nat (List.length (c_str s)) <= INT_MAX ->
  evaluate_static P depth start s = evaluate_dynamic P depth start (c_str s).
Proof.
  intros _ Hfit.
  assert (Hc : evaluate_static P depth start (c_str s) =
               evaluate_dynamic P depth start (c_str s)).
  { unfold evaluate_static, evaluate_dynamic, RTDFARunner.run.
    apply (agree_at P (c_str s) (c_str_no_NUL s) Hfit depth start 0%nat). lia. }
  destruct (c_str_split s) as [Heq|[rest Heq]].
  - rewrite Heq at 1. exact Hc.
  - rewrite Heq at 1. rewrite static_ignores_after_NUL. exact Hc.
Qed.

Lemma static_is_dynamic_on_c_str_witness :
  evaluate_static main_cpp 3 DFA_01_STAR.Q0 (chars "01" ++ NUL :: chars "1") =
  evaluate_dynamic main_cpp 3 DFA_01_STAR.Q0 (chars "01").
Proof.
  apply (static_is_dynamic_on_c_str main_cpp 3 DFA_01_STAR.Q0
           (chars "01" ++ NUL :: chars "1")).
  - exact (proj1 DFA_01_STAR_automaton).
  - unfold INT_MAX. simpl. lia.
Defined.

(** ** A character array without terminator *)

(** X4 (unterminated array).  [FixedString] takes any character array.  On
    one that holds no ['\0'] the compile-time runner never accepts: it
    rejects at a character without transition, or the read past the array
    makes the program ill-formed. *)
Theorem unterminated_array_never_accepted (P : program) (str : FixedString.t) :
  ~ In NUL (FixedString.data str) ->
  forall depth CURRENT INDEX,
    CTDFARunner.run P depth CURRENT str INDEX <> Ret true /\
    ((List.length (FixedString.data str) <= INDEX)%nat ->
     CTDFARunner.run P (S depth) CURRENT str INDEX = IllFormed).
Proof.
  intros Hnul depth. induction depth as [|depth IH]; intros CURRENT INDEX.
  - split; [discriminate|].
    intros Hout. apply nth_error_None in Hout.
    cbn [CTDFARunner.run]. now rewrite body_eq, Hout.
  - split.
    + cbn [CTDFARunner.run]. rewrite body_eq.
      destruct (nth_error (FixedString.data str) INDEX) as [c|] eqn:Hc;
        [|discriminate].
      destruct (node_of P CURRENT) as [N|]; [|discriminate].
      assert (Hnz : Ascii.eqb c NUL = false).
      { apply Ascii.eqb_neq. intros ->. apply Hnul.
        eapply nth_error_In; eauto. }
      rewrite Hnz. destruct (Node.match_any N c); [|discriminate].
      apply IH.
    + intros Hout. apply nth_error_None in Hout.
      cbn [CTDFARunner.run]. now rewrite body_eq, Hout.
Qed.

Lemma unterminated_array_never_accepted_witness :
  CTDFARunner.run Extra.prog 5 Extra.Loop (FixedString.make (chars "aa")) 0
  <> Ret true.
Proof.
  apply (unterminated_array_never_accepted Extra.prog
           (FixedString.make (chars "aa"))).
  simpl. unfold NUL. intuition discriminate.
Defined.

Example unterminated_array_on_the_loop :
  CTDFARunner.run Extra.prog 5 Extra.Loop (FixedString.make (chars "aa")) 0
  = IllFormed /\
  CTDFARunner.run Extra.prog 5 Extra.Loop
    (FixedString.make (FixedString.literal (chars "aa"))) 0 = Ret true.
Proof. split; reflexivity. Qed.

(** ** A negative position *)

Lemma to_size_t_negative (index : Z) :
  INT_MIN <= index < 0 -> to_size_t index = index + SIZE_WIDTH.
Proof.
  intros Hi. unfold to_size_t. symmetry.
  apply (Z.mod_unique index SIZE_WIDTH (-1) (index + SIZE_WIDTH)).
  - left. unfold SIZE_WIDTH, INT_MIN in *. lia.
  - lia.
Qed.

(** X5 (negative position).  [dispatch] compares its [int] position with
    the unsigned length: a negative position is converted to a value above
    every length, so the call returns the accept flag of the node at once,
    without reading the string and without calling back. *)
Theorem negative_index_returns_accept
        (helper : ty -> list ascii -> Z -> res bool) (N : Node.t)
        (input : list ascii) (index : Z) :
  INT_MIN <= index < 0 ->
  Z.of_nat (List.length input) <= SIZE_WIDTH + INT_MIN ->
  Node.dispatch helper N input index = Ret (Node.accept N).
Proof.
  intros Hi Hlen. unfold Node.dispatch.
  rewrite (to_size_t_negative index Hi).
  rewrite geb_true; [reflexivity|].
  unfold SIZE_WIDTH, INT_MIN in *. lia.
Qed.

Lemma negative_index_returns_accept_witness :
  Node.dispatch (RTDFARunner.helper main_cpp 0)
                (Node.mk true [Edge.mk "0" DFA_01_STAR.Q1]) (chars "x") (-1)
  = Ret true.
Proof.
  apply (negative_index_returns_accept (RTDFARunner.helper main_cpp 0)
           (Node.mk true [Edge.mk "0" DFA_01_STAR.Q1]) (chars "x") (-1)).
  - unfold INT_MIN. lia.
  - unfold SIZE_WIDTH, INT_MIN. simpl. lia.
Defined.

(** ** Terminal states *)

Lemma terminal_no_edges (N : Node.t) :
  Node.is_terminal N = true -> Node.EDGES N = [].
Proof.
  unfold Node.is_terminal. destruct (Node.EDGES N); [reflexivity|discriminate].
Qed.

(** X6 (terminal state).  A state with [is_terminal] matches no character
    and resolves every character to itself.  From it the run-time runner
    accepts the empty string when the state accepts, and rejects every
    other string; the compile-time runner does the same on the C string of
    the literal.  One activation is enough. *)
Theorem terminal_state_accepts_at_most_empty (P : program) (depth : nat)
        (CURRENT : ty) (N : Node.t) (s : list ascii) :
  node_of P CURRENT = Some N ->
  Node.is_terminal N = true ->
  Z.of_nat (List.length s) <= INT_MAX ->
  (forall c, Node.match_any N c = false /\ Node.next N c = Node.self N) /\
  evaluate_dynamic P (S depth) CURRENT s =
  Ret (Node.accept N && Nat.eqb (List.length s) 0) /\
  evaluate_static P (S depth) CURRENT s =
  Ret (Node.accept N && Nat.eqb (List.length (c_str s)) 0).
Proof.
  intros HN Hterm Hfit.
  pose proof (terminal_no_edges N Hterm) as Hedges.
  split; [|split].
  - intros c. unfold Node.match_any, Node.next. now rewrite Hedges.
  - unfold evaluate_dynamic, RTDFARunner.run.
    rewrite (helper_unfold P depth CURRENT N s 0 HN) by (unfold INT_MAX; lia).
    destruct s as [|c rest].
    + simpl. now rewrite andb_true_r.
    + rewrite geb_false by (simpl List.length; lia).
      change (nth_error (c :: rest) (Z.to_nat 0)) with (Some c). cbv iota.
      rewrite Hedges. simpl. now rewrite andb_false_r.
  - unfold evaluate_static. cbn [CTDFARunner.run].
    rewrite body_eq, FixedString_make_data, HN.
    destruct s as [|c rest].
    + simpl. now rewrite andb_true_r.
    + simpl. destruct (Ascii.eqb c NUL); simpl.
      * now rewrite andb_true_r.
      * unfold Node.match_any. rewrite Hedges. simpl. now rewrite andb_false_r.
Qed.

Lemma terminal_state_accepts_at_most_empty_witness :
  evaluate_dynamic main_cpp 1 DFA_BRANCH.Q1 (chars "01") = Ret false /\
  evaluate_static main_cpp 1 DFA_BRANCH.Q1 (chars "01") = Ret false.
Proof.
  refine (proj2 (terminal_state_accepts_at_most_empty main_cpp 0
                   DFA_BRANCH.Q1 (Node.mk true []) (chars "01")
                   eq_refl eq_refl _)).
  unfold INT_MAX. simpl. lia.
Defined.

(** ** Transitions declared after others *)

Lemma first_labelled_app (c : ascii) (pre post : list Edge.t) :
  first_labelled c (pre ++ post) =
  match first_labelled c pre with
  | Some E => Some E
  | None => first_labelled c post
  end.
Proof.
  induction pre as [|E pre IH]; [reflexivity|].
  change ((E :: pre) ++ post) with (E :: (pre ++ post)).
  rewrite !first_labelled_cons. destruct (Edge.check E c); [reflexivity|exact IH].
Qed.

(** X8 (appended transitions).  Resolving over [pre ++ post] is resolving
    over [pre] with the result over [post] as fall-back, and [match_any]
    over [pre ++ post] is the disjunction of the two.  Hence transitions
    appended to a state never redirect a label the state already has. *)
Theorem appended_transitions (c : ascii) (a : bool) (pre post : list Edge.t) :
  (forall NODE,
      TransitionFinder c NODE (pre ++ post) =
      TransitionFinder c (TransitionFinder c NODE post) pre) /\
  Node.match_any (Node.mk a (pre ++ post)) c =
  Node.match_any (Node.mk a pre) c || Node.match_any (Node.mk a post) c /\
  (Node.match_any (Node.mk a pre) c = true ->
   Node.next (Node.mk a (pre ++ post)) c = Node.next (Node.mk a pre) c).
Proof.
  split; [|split].
  - intros NODE. rewrite !TransitionFinder_first, first_labelled_app.
    destruct (first_labelled c pre); reflexivity.
  - rewrite !match_any_first. simpl. rewrite first_labelled_app.
    destruct (first_labelled c pre); [reflexivity|].
    destruct (first_labelled c post); reflexivity.
  - rewrite match_any_first. unfold Node.next. simpl.
    rewrite !TransitionFinder_first, first_labelled_app.
    destruct (first_labelled c pre); [reflexivity|discriminate].
Qed.

Lemma appended_transitions_witness :
  Node.next (Node.mk false ([Edge.mk "0" DFA_BRANCH.Q1] ++
                            [Edge.mk "0" DFA_BRANCH.Q2;
                             Edge.mk "1" DFA_BRANCH.Q2])) "0" =
  Node.next (Node.mk false [Edge.mk "0" DFA_BRANCH.Q1]) "0".
Proof.
  apply (proj2 (proj2 (appended_transitions "0" false
                         [Edge.mk "0" DFA_BRANCH.Q1]
                         [Edge.mk "0" DFA_BRANCH.Q2;
                          Edge.mk "1" DFA_BRANCH.Q2]))).
  reflexivity.
Defined.

(** ** The order of the transitions of a deterministic state *)

Lemma first_labelled_unique (c : ascii) (EDGES : list Edge.t) (E : Edge.t) :
  NoDup (map Edge.C EDGES) -> In E EDGES -> Edge.C E = c ->
  first_labelled c EDGES = Some E.
Proof.
  induction EDGES as [|E' EDGES IH]; intros Hnd HIn HC; [destruct HIn|].
  rewrite first_labelled_cons, check_labelled.
  simpl in Hnd. inversion Hnd as [|? ? Hnotin Hnd']; subst.
  destruct HIn as [->|HIn].
  - now rewrite Ascii.eqb_refl.
  - destruct (Ascii.eqb (Edge.C E') (Edge.C E)) eqn:Heq.
    + apply Ascii.eqb_eq in Heq. exfalso. apply Hnotin. rewrite Heq.
      now apply in_map.
    + now apply IH.
Qed.

Lemma first_labelled_none (c : ascii) (EDGES : list Edge.t) :
  first_labelled c EDGES = None <-> (forall E, In E EDGES -> Edge.C E <> c).
Proof.
  unfold first_labelled. split.
  - intros Hnone E HIn HC. pose proof (find_none _ _ Hnone E HIn) as H.
    simpl in H. rewrite HC, Ascii.eqb_refl in H. discriminate.
  - intros Hall. destruct (find _ EDGES) as [E|] eqn:Hfind; [|reflexivity].
    apply find_some in Hfind as [HIn Heq]. apply Ascii.eqb_eq in Heq.
    exfalso. now apply (Hall E).
Qed.

(** X9 (order).  In a state without two transitions of the same label the
    declared order plays no part: every reordering of the transitions
    resolves each character to the same destination and matches the same
    characters. *)
Theorem order_irrelevant_without_duplicates (a : bool)
        (EDGES EDGES' : list Edge.t) (c : ascii) :
  distinct_labels (Node.mk a EDGES) ->
  Permutation EDGES EDGES' ->
  (forall NODE, TransitionFinder c NODE EDGES = TransitionFinder c NODE EDGES') /\
  Node.match_any (Node.mk a EDGES) c = Node.match_any (Node.mk a EDGES') c.
Proof.
  unfold distinct_labels. simpl. intros Hnd Hperm.
  assert (Hnd' : NoDup (map Edge.C EDGES'))
    by (eapply Permutation_NoDup; [apply Permutation_map; exact Hperm|exact Hnd]).
  assert (Hsame : first_labelled c EDGES = first_labelled c EDGES').
  { destruct (first_labelled c EDGES) as [E|] eqn:HE.
    - apply first_labelled_In in HE as [HIn HC]. symmetry.
      apply first_labelled_unique; [exact Hnd'| |exact HC].
      eapply Permutation_in; eauto.
    - symmetry. apply first_labelled_none. intros E HIn.
      apply (proj1 (first_labelled_none c EDGES) HE).
      eapply Permutation_in; [apply Permutation_sym; exact Hperm|exact HIn]. }
  split.
  - intros NODE. now rewrite !TransitionFinder_first, Hsame.
  - rewrite !match_any_first. simpl. now rewrite Hsame.
Qed.

Lemma order_irrelevant_without_duplicates_witness :
  TransitionFinder "1" TOther
    [Edge.mk "0" DFA_BRANCH.Q1; Edge.mk "1" DFA_BRANCH.Q2] =
  TransitionFinder "1" TOther
    [Edge.mk "1" DFA_BRANCH.Q2; Edge.mk "0" DFA_BRANCH.Q1].
Proof.
  refine (proj1 (order_irrelevant_without_duplicates false
                   [Edge.mk "0" DFA_BRANCH.Q1; Edge.mk "1" DFA_BRANCH.Q2]
                   [Edge.mk "1" DFA_BRANCH.Q2; Edge.mk "0" DFA_BRANCH.Q1]
                   "1" _ _) TOther).
  - unfold distinct_labels. simpl. repeat constructor; simpl; intuition discriminate.
  - apply perm_swap.
Defined.

(** ** Evaluation goes on from the state reached *)

Lemma accepts_app (P : program) (s1 s2 : list ascii) :
  forall START T,
    walk P START s1 = Some T ->
    accepts P START (s1 ++ s2) = accepts P T s2.
Proof.
  induction s1 as [|c rest IH]; intros START T Hwalk.
  - simpl in Hwalk. now injection Hwalk as <-.
  - simpl in Hwalk. change ((c :: rest) ++ s2) with (c :: (rest ++ s2)).
    rewrite accepts_unfold.
    destruct (node_of P START) as [N|]; [|discriminate].
    destruct (first_labelled c (Node.EDGES N)) as [E|]; [|discriminate].
    now apply IH.
Qed.

(** X10 (concatenation).  On a well-formed automaton, if the characters
    of [s1] lead from the start to the state [T], the run-time verdict on
    [s1 ++ s2] is the run-time verdict on [s2] from [T]: the verdict depends
    on what was read only through the state reached. *)
Theorem run_continues_from_the_state_reached (P : program)
        (depth depth' : nat) (start T : ty) (s1 s2 : list ascii) :
  automaton P start ->
  walk P start s1 = Some T ->
  Z.of_nat (List.length (s1 ++ s2)) <= INT_MAX ->
  (List.length (s1 ++ s2) < depth)%nat ->
  (List.length s2 < depth')%nat ->
  evaluate_dynamic P depth start (s1 ++ s2) = evaluate_dynamic P depth' T s2.
Proof.
  intros _ Hwalk Hfit Hd Hd'. pose proof (length_app s1 s2) as Hlen.
  unfold evaluate_dynamic.
  rewrite (run_accepts P (s1 ++ s2) depth start Hfit Hd).
  rewrite (run_accepts P s2 depth' T) by lia.
  now apply accepts_app.
Qed.

Lemma run_continues_from_the_state_reached_witness :
  evaluate_dynamic main_cpp 5 DFA_01_STAR.Q0 (chars "01" ++ chars "01") =
  evaluate_dynamic main_cpp 3 DFA_01_STAR.Q2 (chars "01").
Proof.
  apply (run_continues_from_the_state_reached main_cpp 5 3
           DFA_01_STAR.Q0 DFA_01_STAR.Q2 (chars "01") (chars "01")).
  - exact (proj1 DFA_01_STAR_automaton).
  - reflexivity.
  - unfold INT_MAX. simpl. lia.
  - simpl. lia.
  - simpl. lia.
Defined.

(** X11 (rejection is final).  On a well-formed automaton, if the
    characters of [s1] lead to a state that has no transition matching [c],
    the run-time runner rejects [s1 ++ c :: s2] for every continuation
    [s2]: no later character brings a rejected string back. *)
Theorem run_rejects_after_a_missing_transition (P : program) (depth : nat)
        (start T : ty) (N : Node.t) (s1 s2 : list ascii) (c : ascii) :
  automaton P start ->
  walk P start s1 = Some T ->
  node_of P T = Some N ->
  Node.match_any N c = false ->
  Z.of_nat (List.length (s1 ++ c :: s2)) <= INT_MAX ->
  (List.length (s1 ++ c :: s2) < depth)%nat ->
  evaluate_dynamic P depth start (s1 ++ c :: s2) = Ret false.
Proof.
  intros _ Hwalk HN Hno Hfit Hd. unfold evaluate_dynamic.
  rewrite (run_accepts P (s1 ++ c :: s2) depth start Hfit Hd).
  rewrite (accepts_app P s1 (c :: s2) start T Hwalk).
  rewrite accepts_unfold, HN.
  rewrite match_any_first in Hno.
  destruct (first_labelled c (Node.EDGES N)); [discriminate|reflexivity].
Qed.

Lemma run_rejects_after_a_missing_transition_witness :
  evaluate_dynamic main_cpp 6 DFA_01_STAR.Q0 (chars "01" ++ "1"%char :: chars "01")
  = Ret false.
Proof.
  apply (run_rejects_after_a_missing_transition main_cpp 6
           DFA_01_STAR.Q0 DFA_01_STAR.Q2
           (Node.mk true [Edge.mk "0" DFA_01_STAR.Q3])
           (chars "01") (chars "01") "1").
  - exact (proj1 DFA_01_STAR_automaton).
  - reflexivity.
  - reflexivity.
  - reflexivity.
  - unfold INT_MAX. simpl. lia.
  - simpl. lia.
Defined.

(** ** The compile-time runner against acceptance *)

Lemma literal_app (pre s : list ascii) :
  FixedString.literal (pre ++ s) = pre ++ FixedString.literal s.
Proof. unfold FixedString.literal. now rewrite app_assoc. Qed.

Lemma run_shift (P : program) (pre s : list ascii) :
  forall depth CURRENT (j : nat),
    CTDFARunner.run P depth CURRENT
      (FixedString.make (FixedString.literal (pre ++ s)))
      (List.length pre + j) =
    CTDFARunner.run P depth CURRENT
      (FixedString.make (FixedString.literal s)) j.
Proof.
  induction depth as [|depth IH]; intros CURRENT j; [reflexivity|].
  cbn [CTDFARunner.run]. rewrite !body_eq, !FixedString_make_data.
  rewrite (literal_app pre s) at 1.
  rewrite nth_error_app2 by lia.
  replace (List.length pre + j - List.length pre)%nat with j by lia.
  destruct (nth_error (FixedString.literal s) j) as [c|]; [|reflexivity].
  destruct (node_of P CURRENT) as [N|]; [|reflexivity].
  destruct (Ascii.eqb c NUL); [reflexivity|].
  destruct (Node.match_any N c); [|reflexivity].
  replace (List.length pre + j + 1)%nat with (List.length pre + (j + 1))%nat
    by lia.
  apply IH.
Qed.

Lemma static_accepts (P : program) (s : list ascii) :
  forall depth CURRENT,
    ~ In NUL s ->
    (List.length s < depth)%nat ->
    evaluate_static P depth CURRENT s = accepts P CURRENT s.
Proof.
  induction s as [|c rest IH]; intros depth CURRENT Hnul Hd;
    (destruct depth as [|depth]; [simpl in Hd; lia|]);
    unfold evaluate_static; rewrite accepts_unfold;
    (destruct (node_of P CURRENT) as [N|] eqn:HN;
     [|cbn [CTDFARunner.run]; rewrite body_eq, FixedString_make_data, HN;
       reflexivity]).
  - cbn [CTDFARunner.run]. now rewrite body_eq, FixedString_make_data, HN.
  - assert (Hc : nth_error (FixedString.data
                   (FixedString.make (FixedString.literal (c :: rest)))) 0
                 = Some c) by (now rewrite FixedString_make_data).
    rewrite (run_unfold P depth CURRENT N _ 0 c HN Hc).
    replace (Ascii.eqb c NUL) with false
      by (symmetry; apply Ascii.eqb_neq; intros ->; apply Hnul; now left).
    destruct (first_labelled c (Node.EDGES N)) as [E|]; [|reflexivity].
    rewrite <- (IH depth (Edge.next E));
      [|intros H; apply Hnul; now right|simpl in Hd; lia].
    unfold evaluate_static.
    apply (run_shift P [c] rest depth (Edge.next E) 0%nat).
Qed.

(** ** The languages of the two automata of the source *)

Lemma accepts_one_edge (P : program) (CURRENT : ty) (a : bool) (label : ascii)
      (NEXT : ty) (c : ascii) (rest : list ascii) :
  node_of P CURRENT = Some (Node.mk a [Edge.mk label NEXT]) ->
  accepts P CURRENT (c :: rest) =
  if Ascii.eqb c label then accepts P NEXT rest else Ret false.
Proof.
  intros HN. rewrite accepts_unfold, HN. simpl Node.EDGES.
  rewrite first_labelled_cons. unfold Edge.check. simpl Edge.C.
  destruct (Ascii.eqb c label); reflexivity.
Qed.

Lemma accepts_nil (P : program) (CURRENT : ty) (N : Node.t) :
  node_of P CURRENT = Some N -> accepts P CURRENT [] = Ret (Node.accept N).
Proof. intros HN. simpl. now rewrite HN. Qed.

Lemma accepts_01_from_Q2 (n : nat) :
  forall s, (List.length s <= n)%nat ->
            accepts main_cpp DFA_01_STAR.Q2 s = Ret (zero_one_star s).
Proof.
  induction n as [|n IH]; intros s Hn.
  - destruct s; [reflexivity|simpl in Hn; lia].
  - destruct s as [|a [|b rest]]; [reflexivity| |].
    + rewrite (accepts_one_edge main_cpp DFA_01_STAR.Q2 true "0"
                 DFA_01_STAR.Q3 a [] eq_refl).
      destruct (Ascii.eqb a "0"); reflexivity.
    + rewrite (accepts_one_edge main_cpp DFA_01_STAR.Q2 true "0"
                 DFA_01_STAR.Q3 a (b :: rest) eq_refl).
      rewrite (accepts_one_edge main_cpp DFA_01_STAR.Q3 false "1"
                 DFA_01_STAR.Q2 b rest eq_refl).
      change (zero_one_star (a :: b :: rest))
        with (Ascii.eqb a "0" && Ascii.eqb b "1" && zero_one_star rest).
      destruct (Ascii.eqb a "0"); [|reflexivity].
      destruct (Ascii.eqb b "1"); [|reflexivity].
      apply IH. simpl in Hn. lia.
Qed.

Lemma accepts_01_from_Q0 (s : list ascii) :
  accepts main_cpp DFA_01_STAR.Q0 s = Ret (zero_one_star s).
Proof.
  destruct s as [|a [|b rest]]; [reflexivity| |].
  - rewrite (accepts_one_edge main_cpp DFA_01_STAR.Q0 true "0"
               DFA_01_STAR.Q1 a [] eq_refl).
    destruct (Ascii.eqb a "0"); reflexivity.
  - rewrite (accepts_one_edge main_cpp DFA_01_STAR.Q0 true "0"
               DFA_01_STAR.Q1 a (b :: rest) eq_refl).
    rewrite (accepts_one_edge main_cpp DFA_01_STAR.Q1 false "1"
               DFA_01_STAR.Q2 b rest eq_refl).
    change (zero_one_star (a :: b :: rest))
      with (Ascii.eqb a "0" && Ascii.eqb b "1" && zero_one_star rest).
    destruct (Ascii.eqb a "0"); [|reflexivity].
    destruct (Ascii.eqb b "1"); [|reflexivity].
    apply (accepts_01_from_Q2 (List.length rest)). lia.
Qed.

(** X13 (the language of [DFA_01_STAR]).  As its comment says, the
    automaton accepts the repetitions of "01" and nothing else: on every
    string the run-time runner, and on every literal without ['\0'] the
    compile-time runner, return whether the string is such a repetition. *)
Theorem DFA_01_STAR_language (s : list ascii) (depth : nat) :
  (List.length s < depth)%nat ->
  (Z.of_nat (List.length s) <= INT_MAX ->
   evaluate_dynamic main_cpp depth DFA_01_STAR.Q0 s = Ret (zero_one_star s)) /\
  (~ In NUL s ->
   evaluate_static main_cpp depth DFA_01_STAR.Q0 s = Ret (zero_one_star s)).
Proof.
  intros Hd. split.
  - intros Hfit. unfold evaluate_dynamic.
    rewrite (run_accepts main_cpp s depth DFA_01_STAR.Q0 Hfit Hd).
    apply accepts_01_from_Q0.
  - intros Hnul.
    rewrite (static_accepts main_cpp s depth DFA_01_STAR.Q0 Hnul Hd).
    apply accepts_01_from_Q0.
Qed.

Lemma DFA_01_STAR_language_witness :
  evaluate_dynamic main_cpp 7 DFA_01_STAR.Q0 (chars "010101") = Ret true /\
  evaluate_static main_cpp 7 DFA_01_STAR.Q0 (chars "010101") = Ret true.
Proof.
  destruct (DFA_01_STAR_language (chars "010101") 7) as [Hdyn Hstat];
    [simpl; lia|].
  split.
  - apply Hdyn. unfold INT_MAX. simpl. lia.
  - apply Hstat. simpl. unfold NUL. intuition discriminate.
Defined.

Lemma accepts_two_edges (P : program) (CURRENT : ty) (a : bool)
      (l1 l2 : ascii) (N1 N2 : ty) (c : ascii) (rest : list ascii) :
  node_of P CURRENT = Some (Node.mk a [Edge.mk l1 N1; Edge.mk l2 N2]) ->
  accepts P CURRENT (c :: rest) =
  if Ascii.eqb c l1 then accepts P N1 rest
  else if Ascii.eqb c l2 then accepts P N2 rest else Ret false.
Proof.
  intros HN. rewrite accepts_unfold, HN. simpl Node.EDGES.
  rewrite first_labelled_cons. unfold Edge.check at 1. simpl Edge.C.
  destruct (Ascii.eqb c l1); [reflexivity|].
  rewrite first_labelled_cons. unfold Edge.check. simpl Edge.C.
  destruct (Ascii.eqb c l2); reflexivity.
Qed.

Lemma accepts_terminal (P : program) (CURRENT : ty) (a : bool)
      (s : list ascii) :
  node_of P CURRENT = Some (Node.mk a []) ->
  accepts P CURRENT s = Ret (a && Nat.eqb (List.length s) 0).
Proof.
  intros HN. rewrite accepts_unfold, HN.
  destruct s; simpl; [now rewrite andb_true_r|now rewrite andb_false_r].
Qed.

Lemma accepts_branch (s : list ascii) :
  accepts main_cpp DFA_BRANCH.Q0 s = Ret (zero_or_one s).
Proof.
  destruct s as [|c rest]; [reflexivity|].
  rewrite (accepts_two_edges main_cpp DFA_BRANCH.Q0 false "0" "1"
             DFA_BRANCH.Q1 DFA_BRANCH.Q2 c rest eq_refl).
  rewrite (accepts_terminal main_cpp DFA_BRANCH.Q1 true rest eq_refl).
  rewrite (accepts_terminal main_cpp DFA_BRANCH.Q2 true rest eq_refl).
  destruct rest as [|d rest]; simpl;
    destruct (Ascii.eqb c "0"); destruct (Ascii.eqb c "1"); reflexivity.
Qed.

(** X14 (the language of [DFA_BRANCH]).  The automaton accepts the two
    one-character strings "0" and "1" and nothing else, with either
    runner. *)
Theorem DFA_BRANCH_language (s : list ascii) (depth : nat) :
  (List.length s < depth)%nat ->
  (Z.of_nat (List.length s) <= INT_MAX ->
   evaluate_dynamic main_cpp depth DFA_BRANCH.Q0 s = Ret (zero_or_one s)) /\
  (~ In NUL s ->
   evaluate_static main_cpp depth DFA_BRANCH.Q0 s = Ret (zero_or_one s)).
Proof.
  intros Hd. split.
  - intros Hfit. unfold evaluate_dynamic.
    rewrite (run_accepts main_cpp s depth DFA_BRANCH.Q0 Hfit Hd).
    apply accepts_branch.
  - intros Hnul.
    rewrite (static_accepts main_cpp s depth DFA_BRANCH.Q0 Hnul Hd).
    apply accepts_branch.
Qed.

Lemma DFA_BRANCH_language_witness :
  evaluate_dynamic main_cpp 3 DFA_BRANCH.Q0 (chars "10") = Ret false /\
  evaluate_static main_cpp 3 DFA_BRANCH.Q0 (chars "10") = Ret false.
Proof.
  destruct (DFA_BRANCH_language (chars "10") 3) as [Hdyn Hstat];
    [simpl; lia|].
  split.
  - apply Hdyn. unfold INT_MAX. simpl. lia.
  - apply Hstat. simpl. unfold NUL. intuition discriminate.
Defined.

(** ** Evaluation looks at the states of the automaton only *)

Lemma reachable_next (P : program) (start : ty) (N : Node.t) (E : Edge.t)
      (T : ty) :
  node_of P start = Some N -> In E (Node.EDGES N) ->
  reachable P (Edge.next E) T -> reachable P start T.
Proof. intros HN HE HR. eapply reachable_edge; eauto. Qed.

Section Locality.

Variables P P' : program.

Lemma same_states_next (start : ty) (N : Node.t) (E : Edge.t) :
  same_states P P' start -> node_of P start = Some N -> In E (Node.EDGES N) ->
  same_states P P' (Edge.next E).
Proof.
  intros Hsame HN HE T HR. apply Hsame. eapply reachable_next; eauto.
Qed.

Lemma helper_local (input : list ascii) (depth : nat) :
  forall start index,
    same_states P P' start ->
    RTDFARunner.helper P depth start input index =
    RTDFARunner.helper P' depth start input index.
Proof.
  induction depth as [|depth IH]; intros start index Hsame; [reflexivity|].
  simpl. rewrite <- (Hsame start (reachable_start P start)).
  destruct (node_of P start) as [N|] eqn:HN; [|reflexivity].
  unfold Node.dispatch.
  destruct (to_size_t index >=? Z.of_nat (List.length input)); [reflexivity|].
  destruct (nth_error input (Z.to_nat (to_size_t index))) as [c|];
    [|reflexivity].
  rewrite !dispatch_fold_first.
  destruct (first_labelled c (Node.EDGES N)) as [E|] eqn:HE; [|reflexivity].
  apply first_labelled_In in HE as [HIn _].
  destruct (int_add index 1) as [i| | |]; simpl; try reflexivity.
  rewrite (IH (Edge.next E) i (same_states_next start N E Hsame HN HIn)).
  reflexivity.
Qed.

Lemma run_local (str : FixedString.t) (depth : nat) :
  forall start INDEX,
    same_states P P' start ->
    CTDFARunner.run P depth start str INDEX =
    CTDFARunner.run P' depth start str INDEX.
Proof.
  induction depth as [|depth IH]; intros start INDEX Hsame; [reflexivity|].
  cbn [CTDFARunner.run]. rewrite !body_eq.
  rewrite <- (Hsame start (reachable_start P start)).
  destruct (nth_error (FixedString.data str) INDEX) as [c|]; [|reflexivity].
  destruct (node_of P start) as [N|] eqn:HN; [|reflexivity].
  destruct (Ascii.eqb c NUL); [reflexivity|].
  rewrite match_any_first. unfold Node.next. rewrite TransitionFinder_first.
  destruct (first_labelled c (Node.EDGES N)) as [E|] eqn:HE; [|reflexivity].
  apply first_labelled_In in HE as [HIn _].
  apply IH. eapply same_states_next; eauto.
Qed.

End Locality.

(** X16 (locality).  Two programs that define the states of the automaton
    alike give the same result, with either runner, on every string and
    with every budget: what else a program defines plays no part. *)
Theorem evaluation_is_local (P P' : program) (start : ty) (depth : nat)
        (s : list ascii) :
  (forall T, reachable P start T -> node_of P T = node_of P' T) ->
  evaluate_dynamic P depth start s = evaluate_dynamic P' depth start s /\
  evaluate_static P depth start s = evaluate_static P' depth start s.
Proof.
  intros Hsame. split.
  - unfold evaluate_dynamic, RTDFARunner.run. now apply helper_local.
  - unfold evaluate_static. now apply run_local.
Qed.

Lemma DFA_BRANCH_states (T : ty) :
  reachable main_cpp DFA_BRANCH.Q0 T ->
  In T [DFA_BRANCH.Q0; DFA_BRANCH.Q1; DFA_BRANCH.Q2].
Proof.
  apply (automaton_by_invariant main_cpp DFA_BRANCH.Q0
           (fun T => In T [DFA_BRANCH.Q0; DFA_BRANCH.Q1; DFA_BRANCH.Q2]));
    [now left|].
  intros U HU. simpl in HU.
  destruct HU as [<-|[<-|[<-|[]]]];
    (eexists; split; [reflexivity|]); intros E HE; cbn in HE.
  - destruct HE as [<-|[<-|[]]]; cbn; auto.
  - destruct HE.
  - destruct HE.
Qed.

Lemma evaluation_is_local_witness :
  evaluate_dynamic main_cpp 2 DFA_BRANCH.Q0 (chars "1") =
  evaluate_dynamic branch_cpp 2 DFA_BRANCH.Q0 (chars "1") /\
  evaluate_static main_cpp 2 DFA_BRANCH.Q0 (chars "1") =
  evaluate_static branch_cpp 2 DFA_BRANCH.Q0 (chars "1").
Proof.
  apply evaluation_is_local.
  intros T HT. apply DFA_BRANCH_states in HT. simpl in HT.
  destruct HT as [<-|[<-|[<-|[]]]]; reflexivity.
Defined.

(** ** The language of the automaton of [TEST_TRANSITION] *)

Lemma accepts_alternation_from_Q2 (n : nat) :
  forall s, (List.length s <= n)%nat ->
            accepts main_cpp TEST_TRANSITION.Q2 s = Ret (zero_to_zero s).
Proof.
  induction n as [|n IH]; intros s Hn.
  - destruct s; [reflexivity|simpl in Hn; lia].
  - destruct s as [|a [|b rest]]; [reflexivity| |].
    + rewrite (accepts_one_edge main_cpp TEST_TRANSITION.Q2 false "0"
                 TEST_TRANSITION.Q3 a [] eq_refl).
      simpl. destruct (Ascii.eqb a "0"); reflexivity.
    + rewrite (accepts_one_edge main_cpp TEST_TRANSITION.Q2 false "0"
                 TEST_TRANSITION.Q3 a (b :: rest) eq_refl).
      rewrite (accepts_one_edge main_cpp TEST_TRANSITION.Q3 true "1"
                 TEST_TRANSITION.Q2 b rest eq_refl).
      change (zero_to_zero (a :: b :: rest))
        with (Ascii.eqb a "0" && (Ascii.eqb b "1" && zero_to_zero rest)).
      destruct (Ascii.eqb a "0"); [|reflexivity].
      destruct (Ascii.eqb b "1"); [|reflexivity].
      apply IH. simpl in Hn. lia.
Qed.

Lemma accepts_TEST_TRANSITION (s : list ascii) :
  accepts main_cpp TEST_TRANSITION.Q0 s = Ret (empty_or_010 s).
Proof.
  destruct s as [|a [|b rest]]; [reflexivity| |].
  - rewrite (accepts_one_edge main_cpp TEST_TRANSITION.Q0 true "0"
               TEST_TRANSITION.Q1 a [] eq_refl).
    destruct (Ascii.eqb a "0"); reflexivity.
  - rewrite (accepts_one_edge main_cpp TEST_TRANSITION.Q0 true "0"
               TEST_TRANSITION.Q1 a (b :: rest) eq_refl).
    rewrite (accepts_one_edge main_cpp TEST_TRANSITION.Q1 false "1"
               TEST_TRANSITION.Q2 b rest eq_refl).
    change (empty_or_010 (a :: b :: rest))
      with (Ascii.eqb a "0" && Ascii.eqb b "1" && zero_to_zero rest).
    destruct (Ascii.eqb a "0"); [|reflexivity].
    destruct (Ascii.eqb b "1"); [|reflexivity].
    apply (accepts_alternation_from_Q2 (List.length rest)). lia.
Qed.

(** X17 (the language of [TEST_TRANSITION]).  With the accept flags of lines
    146-149 the automaton accepts the empty string and the strings "010",
    "01010", ... and nothing else, with either runner.  The string
    "01010101" of its comment ends in the rejecting state [Q2] and is not
    accepted. *)
Theorem TEST_TRANSITION_language (s : list ascii) (depth : nat) :
  (List.length s < depth)%nat ->
  (Z.of_nat (List.length s) <= INT_MAX ->
   evaluate_dynamic main_cpp depth TEST_TRANSITION.Q0 s = Ret (empty_or_010 s)) /\
  (~ In NUL s ->
   evaluate_static main_cpp depth TEST_TRANSITION.Q0 s = Ret (empty_or_010 s)).
Proof.
  intros Hd. split.
  - intros Hfit. unfold evaluate_dynamic.
    rewrite (run_accepts main_cpp s depth TEST_TRANSITION.Q0 Hfit Hd).
    apply accepts_TEST_TRANSITION.
  - intros Hnul.
    rewrite (static_accepts main_cpp s depth TEST_TRANSITION.Q0 Hnul Hd).
    apply accepts_TEST_TRANSITION.
Qed.

Lemma TEST_TRANSITION_language_witness :
  evaluate_dynamic main_cpp 9 TEST_TRANSITION.Q0 (chars "01010101") = Ret false /\
  evaluate_static main_cpp 9 TEST_TRANSITION.Q0 (chars "01010101") = Ret false.
Proof.
  destruct (TEST_TRANSITION_language (chars "01010101") 9) as [Hdyn Hstat];
    [simpl; lia|].
  split.
  - apply Hdyn. unfold INT_MAX. simpl. lia.
  - apply Hstat. simpl. unfold NUL. intuition discriminate.
Defined.

(** ** The constructor of [FixedString] *)

Lemma store_at_length (pre tl : list ascii) (d c : ascii) :
  FixedString.store (pre ++ d :: tl) (List.length pre) c = pre ++ c :: tl.
Proof. induction pre as [|a pre IH]; simpl; [reflexivity|now rewrite IH]. Qed.

Lemma firstn_next (str : list ascii) (k : nat) :
  (k < List.length str)%nat ->
  firstn (S k) str = firstn k str ++ [nth k str NUL].
Proof.
  revert k. induction str as [|a str IH]; intros k Hk; [simpl in Hk; lia|].
  destruct k as [|k]; [reflexivity|].
  simpl in Hk. change (firstn (S (S k)) (a :: str)) with (a :: firstn (S k) str).
  rewrite IH by lia. reflexivity.
Qed.

(** One iteration of the loop that does not overflow: the prefix already
    copied grows by one character. *)
Lemma ctor_loop_step (fuel : nat) (str tail : list ascii) (k : nat) :
  (k < List.length str)%nat ->
  Z.of_nat k < INT_MAX ->
  List.length tail = (List.length str - k)%nat ->
  exists tail',
    List.length tail' = (List.length str - S k)%nat /\
    FixedString.ctor_loop (S fuel) str (firstn k str ++ tail) (Z.of_nat k) =
    FixedString.ctor_loop fuel str (firstn (S k) str ++ tail')
                          (Z.of_nat (S k)).
Proof.
  intros Hk Hmax Htail.
  destruct tail as [|d tl]; [simpl in Htail; lia|].
  exists tl. split; [simpl in Htail; lia|].
  cbn [FixedString.ctor_loop].
  rewrite to_size_t_small by lia.
  replace (Z.of_nat k <? Z.of_nat (List.length str)) with true
    by (symmetry; apply Z.ltb_lt; lia).
  rewrite int_add_1 by lia. cbn [bind]. rewrite Nat2Z.id.
  replace (FixedString.store (firstn k str ++ d :: tl) k (nth k str NUL))
    with (firstn (S k) str ++ tl).
  - f_equal. lia.
  - rewrite (firstn_next str k Hk), <- app_assoc. simpl.
    symmetry.
    replace k with (List.length (firstn k str)) at 2
      by (rewrite length_firstn; lia).
    apply store_at_length.
Qed.

Lemma ctor_loop_copies (str : list ascii) (fuel : nat) :
  Z.of_nat (List.length str) <= INT_MAX ->
  forall k tail,
    (k <= List.length str)%nat ->
    List.length tail = (List.length str - k)%nat ->
    (List.length str - k < fuel)%nat ->
    FixedString.ctor_loop fuel str (firstn k str ++ tail) (Z.of_nat k) = Ret str.
Proof.
  intros Hfit. induction fuel as [|fuel IH]; intros k tail Hk Htail Hfuel; [lia|].
  destruct (Nat.eq_dec k (List.length str)) as [->|Hne].
  - cbn [FixedString.ctor_loop]. rewrite to_size_t_small by lia.
    rewrite Z.ltb_irrefl. rewrite firstn_all.
    destruct tail; [now rewrite app_nil_r|simpl in Htail; lia].
  - destruct (ctor_loop_step fuel str tail k) as (tail' & Hlen & ->); try lia.
    apply IH; lia.
Qed.

Lemma ctor_loop_overflows (str : list ascii) (fuel : nat) :
  INT_MAX < Z.of_nat (List.length str) ->
  forall data i,
    0 <= i <= INT_MAX ->
    (Z.to_nat (INT_MAX - i) < fuel)%nat ->
    FixedString.ctor_loop fuel str data i = Undefined.
Proof.
  intros Hbig. induction fuel as [|fuel IH]; intros data i Hi Hfuel; [lia|].
  cbn [FixedString.ctor_loop]. rewrite to_size_t_small by lia.
  replace (i <? Z.of_nat (List.length str)) with true
    by (symmetry; apply Z.ltb_lt; lia).
  destruct (Z.eq_dec i INT_MAX) as [->|Hne].
  - reflexivity.
  - rewrite int_add_1 by lia. cbn [bind]. apply IH; lia.
Qed.

Lemma ctor_loop_result (str : list ascii) (fuel : nat) :
  forall k tail data,
    (k <= List.length str)%nat ->
    Z.of_nat k <= INT_MAX ->
    List.length tail = (List.length str - k)%nat ->
    FixedString.ctor_loop fuel str (firstn k str ++ tail) (Z.of_nat k)
    = Ret data ->
    data = str /\ Z.of_nat (List.length str) <= INT_MAX.
Proof.
  induction fuel as [|fuel IH]; intros k tail data Hk Hmax Htail Hret;
    [discriminate|].
  destruct (Nat.eq_dec k (List.length str)) as [->|Hne].
  - cbn [FixedString.ctor_loop] in Hret.
    rewrite to_size_t_small, Z.ltb_irrefl in Hret by lia.
    injection Hret as <-. rewrite firstn_all.
    destruct tail; [now rewrite app_nil_r|simpl in Htail; lia].
  - destruct (Z.eq_dec (Z.of_nat k) INT_MAX) as [Heq|Hlt].
    + cbn [FixedString.ctor_loop] in Hret.
      rewrite to_size_t_small in Hret by lia.
      replace (Z.of_nat k <? Z.of_nat (List.length str)) with true in Hret
        by (symmetry; apply Z.ltb_lt; lia).
      rewrite Heq in Hret. discriminate.
    + destruct (ctor_loop_step fuel str tail k) as (tail' & Hlen & Hstep);
        try lia.
      rewrite Hstep in Hret.
      apply (IH (S k) tail' data); try lia. exact Hret.
Qed.

Lemma make_is_mk (str : list ascii) : FixedString.make str = FixedString.mk str.
Proof.
  unfold FixedString.make. f_equal. exact (FixedString_make_data str).
Qed.

(** X15 (the constructor copies).  With its [int] loop counter the
    constructor of [FixedString] copies an array of at most [INT_MAX]
    characters unchanged; on a longer array the increment of the counter
    overflows, which is undefined.  Whenever the constructor returns, the
    array it built holds the characters of its argument. *)
Theorem FixedString_constructor_copies (str : list ascii) (fuel : nat) :
  (List.length str < fuel)%nat ->
  (Z.of_nat (List.length str) <= INT_MAX ->
   FixedString.construct fuel str = Ret (FixedString.make str) /\
   FixedString.data (FixedString.make str) = str) /\
  (INT_MAX < Z.of_nat (List.length str) ->
   FixedString.construct fuel str = Undefined) /\
  (forall built,
      FixedString.construct fuel str = Ret built ->
      FixedString.data built = str /\
      Z.of_nat (List.length str) <= INT_MAX).
Proof.
  intros Hfuel. unfold FixedString.construct.
  assert (Hinit : repeat NUL (List.length str) =
                  firstn 0 str ++ repeat NUL (List.length str))
    by reflexivity.
  assert (Hlen : List.length (repeat NUL (List.length str)) =
                 (List.length str - 0)%nat)
    by (rewrite repeat_length; lia).
  split; [|split].
  - intros Hfit. split; [|apply FixedString_make_data].
    pose proof (ctor_loop_copies str fuel Hfit 0%nat _ (Nat.le_0_l _) Hlen)
      as Hloop.
    change (Z.of_nat 0) with 0 in Hloop. rewrite <- Hinit in Hloop.
    rewrite Hloop by lia.
    cbn [bind]. now rewrite make_is_mk.
  - intros Hbig.
    rewrite (ctor_loop_overflows str fuel Hbig) by (unfold INT_MAX in *; lia).
    reflexivity.
  - intros built Hret. rewrite Hinit in Hret.
    destruct (FixedString.ctor_loop fuel str
                (firstn 0 str ++ repeat NUL (List.length str)) 0)
      as [data| | |] eqn:Hloop; try discriminate.
    cbn [bind] in Hret. injection Hret as <-. simpl FixedString.data.
    apply (ctor_loop_result str fuel 0%nat (repeat NUL (List.length str))
             data (Nat.le_0_l _));
      [unfold INT_MAX; lia|exact Hlen|exact Hloop].
Qed.

Lemma FixedString_constructor_copies_witness :
  FixedString.construct 4 (FixedString.literal (chars "01")) =
  Ret (FixedString.make (FixedString.literal (chars "01"))).
Proof.
  refine (proj1 (proj1 (FixedString_constructor_copies
                          (FixedString.literal (chars "01")) 4 _) _)).
  - simpl. lia.
  - unfold INT_MAX. simpl. lia.
Defined.

(** X12 (compile-time acceptance).  Whenever the constructor builds the
    array of the literal, and with a budget above the length of the C string
    of the literal, the compile-time runner on that array returns the
    verdict of the automaton on the C string: the accept flag of the state
    reached by the first transitions labelled with its characters, [false]
    when a character has none.  Only the states on that way are looked
    at. *)
Theorem static_is_acceptance (P : program) (depth fuel : nat) (start : ty)
        (s : list ascii) (built : FixedString.t) :
  FixedString.construct fuel (FixedString.literal s) = Ret built ->
  (List.length (c_str s) < depth)%nat ->
  CTDFARunner.run P depth start built 0 = accepts P start (c_str s).
Proof.
  intros Hbuilt Hd.
  assert (Hmake : built = FixedString.make (FixedString.literal s)).
  { unfold FixedString.construct in Hbuilt.
    destruct (FixedString.ctor_loop fuel (FixedString.literal s)
                (repeat NUL (List.length (FixedString.literal s))) 0)
      as [data| | |] eqn:Hloop; try discriminate.
    cbn [bind] in Hbuilt. injection Hbuilt as <-.
    rewrite make_is_mk. f_equal.
    apply (ctor_loop_result (FixedString.literal s) fuel 0%nat
             (repeat NUL (List.length (FixedString.literal s))) data
             (Nat.le_0_l _));
      [unfold INT_MAX; lia|rewrite repeat_length; lia|exact Hloop]. }
  subst built. change (evaluate_static P depth start s = accepts P start (c_str s)).
  assert (Hc : evaluate_static P depth start (c_str s) =
               accepts P start (c_str s))
    by (apply static_accepts; [apply c_str_no_NUL|exact Hd]).
  destruct (c_str_split s) as [Heq|[rest Heq]].
  - rewrite Heq at 1. exact Hc.
  - rewrite Heq at 1. rewrite static_ignores_after_NUL. exact Hc.
Qed.

Lemma static_is_acceptance_witness :
  CTDFARunner.run main_cpp 3 DFA_01_STAR.Q0
    (FixedString.make (FixedString.literal (chars "01" ++ NUL :: chars "11"))) 0
  = accepts main_cpp DFA_01_STAR.Q0 (chars "01").
Proof.
  apply (static_is_acceptance main_cpp 3 7 DFA_01_STAR.Q0
           (chars "01" ++ NUL :: chars "11")).
  - reflexivity.
  - simpl. lia.
Defined.

(** ** The two runners at a ['\0'] *)

(** C5 (handling of ['\0']).  The compile-time runner ends at the first
    ['\0'] of the literal: on [pre ++ '\0' :: rest] it returns the verdict of
    the automaton on [pre], the accept flag of the state that [pre] leads
    to, and ignores [rest].  The run-time runner reads all the characters
    of its string and takes ['\0'] as a label like any other: it returns the
    verdict of the automaton on the whole string, and goes on from the
    destination of the transition labelled ['\0'].  On the automaton
    [Z0 --'\0'--> Z1] with [Z1] accepting, and the one-character string
    "\0", the first rejects and the second accepts. *)
Theorem NUL_handling_divergence :
  (forall P depth start pre rest,
      ~ In NUL pre ->
      (List.length pre < depth)%nat ->
      evaluate_static P depth start (pre ++ NUL :: rest) = accepts P start pre) /\
  (forall P depth start pre rest,
      evaluate_static P depth start (pre ++ NUL :: rest) =
      evaluate_static P depth start pre) /\
  (forall P depth CURRENT N str INDEX,
      node_of P CURRENT = Some N ->
      nth_error (FixedString.data str) INDEX = Some NUL ->
      CTDFARunner.run P (S depth) CURRENT str INDEX = Ret (Node.accept N)) /\
  (forall P depth start s,
      automaton P start ->
      Z.of_nat (List.length s) <= INT_MAX ->
      (List.length s < depth)%nat ->
      evaluate_dynamic P depth start s = accepts P start s) /\
  (forall P depth depth' start pre rest T N E,
      automaton P start ->
      Z.of_nat (List.length (pre ++ NUL :: rest)) <= INT_MAX ->
      (List.length (pre ++ NUL :: rest) < depth)%nat ->
      (List.length rest < depth')%nat ->
      walk P start pre = Some T ->
      node_of P T = Some N ->
      first_labelled NUL (Node.EDGES N) = Some E ->
      evaluate_dynamic P depth start (pre ++ NUL :: rest) =
      evaluate_dynamic P depth' (Edge.next E) rest) /\
  (In NUL [NUL] /\ automaton Extra.prog Extra.Z0 /\
   evaluate_static Extra.prog 2 Extra.Z0 [NUL] = Ret false /\
   evaluate_dynamic Extra.prog 2 Extra.Z0 [NUL] = Ret true).
Proof.
  split; [|split; [|split; [|split; [|split]]]].
  - intros P depth start pre rest Hnul Hd.
    rewrite static_ignores_after_NUL. now apply static_accepts.
  - exact static_ignores_after_NUL.
  - intros P depth CURRENT N str INDEX HN Hc.
    rewrite (run_unfold P depth CURRENT N str INDEX NUL HN Hc).
    now rewrite Ascii.eqb_refl.
  - intros P depth start s _ Hfit Hd. unfold evaluate_dynamic.
    now apply run_accepts.
  - intros P depth depth' start pre rest T N E _ Hfit Hd Hd' Hwalk HN HE.
    pose proof (length_app pre (NUL :: rest)) as Hlen. simpl in Hlen.
    unfold evaluate_dynamic.
    rewrite (run_accepts P (pre ++ NUL :: rest) depth start Hfit Hd).
    rewrite (run_accepts P rest depth' (Edge.next E)) by lia.
    rewrite (accepts_app P pre (NUL :: rest) start T Hwalk).
    now rewrite accepts_unfold, HN, HE.
  - split; [now left|]. split; [exact (proj1 Z0_automaton)|].
    split; reflexivity.
Qed.

Lemma NUL_handling_divergence_witness :
  evaluate_static main_cpp 3 DFA_01_STAR.Q0 (chars "01" ++ NUL :: chars "1") =
  accepts main_cpp DFA_01_STAR.Q0 (chars "01") /\
  evaluate_dynamic main_cpp 5 DFA_01_STAR.Q0 (chars "01" ++ NUL :: chars "1") =
  accepts main_cpp DFA_01_STAR.Q0 (chars "01" ++ NUL :: chars "1") /\
  evaluate_dynamic Extra.prog 3 Extra.Z0 ([] ++ NUL :: chars "a") =
  evaluate_dynamic Extra.prog 2 Extra.Z1 (chars "a").
Proof.
  destruct NUL_handling_divergence as (Hstatic & _ & _ & Hdynamic & Hon & _).
  split; [|split].
  - apply Hstatic; [simpl; unfold NUL; intuition discriminate|simpl; lia].
  - apply Hdynamic;
      [exact (proj1 DFA_01_STAR_automaton)|unfold INT_MAX; simpl; lia
      |simpl; lia].
  - apply (Hon Extra.prog 3%nat 2%nat Extra.Z0 [] (chars "a") Extra.Z0
             (Node.mk false [Edge.mk NUL Extra.Z1]) (Edge.mk NUL Extra.Z1));
      try reflexivity;
      [exact (proj1 Z0_automaton)|unfold INT_MAX; simpl; lia|simpl; lia
      |simpl; lia].
Defined.

(** ** Malformed states *)

(** C9 (rejection of malformed states), amended.  Instantiating a [Node]
    whose parameter pack holds a type that is no [Edge] fails on its
    [static_assert]: the class does not exist, a struct derived from it is
    not defined, and no evaluation that stands at such a type returns a
    verdict.  The compile-time runner instantiates a state when it gets to
    it, not where the state is named: its verdict is that of the automaton
    on the C string of the literal, and a [Node] whose pack passes the
    assertion evaluates the empty literal whatever its destinations are.  On
    a well-formed automaton every string gets a boolean verdict: from the
    compile-time runner with a budget above the length, from the run-time
    runner likewise when the length fits [int]. *)
Theorem malformed_node_rejected :
  (forall a params,
      (exists T, In T params /\ is_edge_v T = false) ->
      Node.instantiate a params = None /\
      (forall P depth str INDEX input index b,
          CTDFARunner.run P depth (TNode a params) str INDEX <> Ret b /\
          RTDFARunner.helper P depth (TNode a params) input index <> Ret b) /\
      (forall (P : program) name,
          P name = Node.instantiate a params ->
          forall depth str INDEX input index b,
            CTDFARunner.run P depth (TStruct name) str INDEX <> Ret b /\
            RTDFARunner.helper P depth (TStruct name) input index <> Ret b)) /\
  (forall P depth start s,
      (List.length (c_str s) < depth)%nat ->
      evaluate_static P depth start s = accepts P start (c_str s)) /\
  (forall P depth a params,
      forallb is_edge_v params = true ->
      evaluate_static P (S depth) (TNode a params) [] = Ret a) /\
  (forall P start s depth,
      automaton P start ->
      (List.length s < depth)%nat ->
      exists b, evaluate_static P depth start s = Ret b) /\
  (forall P start s depth,
      automaton P start ->
      Z.of_nat (List.length s) <= INT_MAX ->
      (List.length s < depth)%nat ->
      exists b, evaluate_dynamic P depth start s = Ret b).
Proof.
  split; [|split; [|split; [|split]]].
  - intros a params Hbad.
    assert (Hnone : Node.instantiate a params = None)
      by (now apply instantiate_rejects).
    split; [exact Hnone|]. split.
    + intros P. apply no_verdict_without_node. exact Hnone.
    + intros P name Hdef. apply no_verdict_without_node.
      simpl. now rewrite Hdef.
  - intros P depth start s Hd.
    assert (Hc : evaluate_static P depth start (c_str s) =
                 accepts P start (c_str s))
      by (apply static_accepts; [apply c_str_no_NUL|exact Hd]).
    destruct (c_str_split s) as [Heq|[rest Heq]].
    + rewrite Heq at 1. exact Hc.
    + rewrite Heq at 1. rewrite static_ignores_after_NUL. exact Hc.
  - intros P depth a params Hall. unfold evaluate_static.
    cbn [CTDFARunner.run]. rewrite body_eq, FixedString_make_data.
    simpl. unfold Node.instantiate. now rewrite Hall.
  - intros P start s depth HA Hd. unfold evaluate_static.
    apply run_verdict; [exact HA|lia|lia].
  - intros P start s depth HA Hfit Hd.
    unfold evaluate_dynamic, RTDFARunner.run.
    apply (helper_verdict P s Hfit depth start 0%nat HA); lia.
Qed.

Lemma malformed_node_rejected_witness :
  Node.instantiate true [TEdge "a" (TNode true []); TOther] = None /\
  evaluate_static (fun _ => None) 1 (TNode true [TEdge "a" (TNode true [TOther])])
                  [] = Ret true /\
  (exists b, evaluate_static main_cpp 2 DFA_BRANCH.Q0 (chars "1") = Ret b) /\
  (exists b, evaluate_dynamic main_cpp 2 DFA_BRANCH.Q0 (chars "1") = Ret b).
Proof.
  destruct malformed_node_rejected as (Hbad & _ & Hlazy & Hstatic & Hdynamic).
  split; [|split; [|split]].
  - apply Hbad. exists TOther. split; [right; now left|reflexivity].
  - apply Hlazy. reflexivity.
  - apply Hstatic; [exact (proj1 DFA_BRANCH_automaton)|simpl; lia].
  - apply Hdynamic;
      [exact (proj1 DFA_BRANCH_automaton)|unfold INT_MAX; simpl; lia|simpl; lia].
Defined.
